(** * SOF control plane: mixer codec, block I/O and kcontrol handlers

    A shallow embedding of
      - sound/soc/sof/control.c  (volume/switch/enum/bytes kcontrol handlers,
        [mixer_to_ipc], [ipc_to_mixer]) and
      - the SOF utility file holding [sof_block_write] / [sof_block_read],
        the register and mailbox accessors and the DAI hardware
        configuration functions.

    C integers are mathematical integers ([Z]) with every conversion the C
    code performs written out ([to_u32], [to_int], [to_size_t]).  The target
    is little-endian with a 32-bit [int] and a 64-bit [size_t] (x86_64, the
    platform of the Broxton board in this tree).  Memory is a list of bytes;
    32-bit accesses go through [le_combine] / [le_split]. *)

From Stdlib Require Import ZArith Lia List Bool.
From coqutil Require Import Byte Word.LittleEndianList Z.bitblast.
From stdpp Require Import base list.
Import ListNotations.
Local Open Scope Z_scope.

(** ** C integer types *)

Definition INT_MAX : Z := 2 ^ 31 - 1.

(** Conversion to [u32] / [unsigned int]. *)
Definition to_u32 (z : Z) : Z := z mod 2 ^ 32.

(** Conversion to [int] (two's complement, as gcc does it). *)
Definition to_int (z : Z) : Z := (z + 2 ^ 31) mod 2 ^ 32 - 2 ^ 31.

(** Conversion to [size_t] / [unsigned long]. *)
Definition to_size_t (z : Z) : Z := z mod 2 ^ 64.

Definition EFAULT : Z := 14.
Definition EINVAL : Z := 22.

(** ** Mixer codec (sound/soc/sof/control.c) *)

(** [volume_map[i]] for a [u32 *volume_map].  An index outside the table is
    undefined behaviour in C; the embedding reads 0 there and no statement
    below relies on such a read. *)
Definition volume_map_at (volume_map : list Z) (i : Z) : Z :=
  if i <? 0 then 0 else default 0 (volume_map !! Z.to_nat i).

(** [static inline u32 mixer_to_ipc(unsigned int value, u32 *volume_map,
    int size)].  Whatever integer the caller passes is converted to the
    [unsigned int] parameter on entry, and the comparison [value >= size] is
    carried out in [unsigned int]. *)
Definition mixer_to_ipc (value : Z) (volume_map : list Z) (size : Z) : Z :=
  let value := to_u32 value in
  if to_u32 size <=? value
  then volume_map_at volume_map (size - 1)
  else volume_map_at volume_map value.

(** The [for] loop of [ipc_to_mixer]: [todo] iterations are left, [i] is the
    loop counter.  Falling out of the loop yields [i - 1]. *)
Fixpoint ipc_to_mixer_loop (todo : nat) (i : Z) (value : Z)
    (volume_map : list Z) : Z :=
  match todo with
  | O => i - 1
  | S todo' =>
      if value <=? volume_map_at volume_map i
      then i
      else ipc_to_mixer_loop todo' (i + 1) value volume_map
  end.

(** [static inline u32 ipc_to_mixer(u32 value, u32 *volume_map, int size)]:
    [i] runs from 0 while [i < size]; the [int] result is returned as
    [u32]. *)
Definition ipc_to_mixer (value : Z) (volume_map : list Z) (size : Z) : Z :=
  to_u32 (ipc_to_mixer_loop (Z.to_nat size) 0 value volume_map).

(** A table is non-decreasing. *)
Definition non_decreasing (volume_map : list Z) : Prop :=
  forall (i j : nat) (x y : Z),
    (i <= j)%nat ->
    volume_map !! i = Some x -> volume_map !! j = Some y -> x <= y.

(** ** Block transfer to and from a mapped region

    A region (and any other buffer) is the list of its bytes, addressed from
    0.  The C code leaves bounds to its callers; here a read past the end of
    a list is zero-extended and a write past the end is dropped, and the
    statements about block transfers assume every access in bounds. *)

(** A 32-bit little-endian load from ordinary memory at byte offset [off]
    of the buffer [buf], the C read through a [u32] pointer
    to [buf + off]. *)
Definition load32 (buf : list byte) (off : Z) : Z :=
  le_combine (take 4 (drop (Z.to_nat off) buf)).

(** [ioread32(addr)] on the mapped region [mem]. *)
Definition ioread32 (mem : list byte) (addr : Z) : Z :=
  le_combine (take 4 (drop (Z.to_nat addr) mem)).

(** [iowrite32(value, addr)] on the mapped region [mem]. *)
Definition iowrite32 (value : Z) (mem : list byte) (addr : Z) : list byte :=
  list_inserts (Z.to_nat addr) (le_split 4 value) mem.

(** The word loop of [__iowrite32_copy(to, from, count)]: [todo] words are
    left, [k] words are done. *)
Fixpoint iowrite32_copy_loop (todo : nat) (k : Z) (mem : list byte) (to : Z)
    (from : list byte) : list byte :=
  match todo with
  | O => mem
  | S todo' =>
      iowrite32_copy_loop todo' (k + 1)
        (iowrite32 (load32 from (4 * k)) mem (to + 4 * k)) to from
  end.

(** [__iowrite32_copy(to, from, count)], [count] a [size_t] number of 32-bit
    words. *)
Definition __iowrite32_copy (mem : list byte) (to : Z) (from : list byte)
    (count : Z) : list byte :=
  iowrite32_copy_loop (Z.to_nat count) 0 mem to from.

(** [memcpy_fromio(dst, src, bytes)]: the bytes read from the region. *)
Definition memcpy_fromio (mem : list byte) (src : Z) (bytes : Z) : list byte :=
  take (Z.to_nat bytes) (drop (Z.to_nat src) mem).

(** [sof_block_write(sdev, bar, offset, src, size)].  [mem] is the memory
    behind [sdev->bar[bar]]; the result is that memory after the call.
    [m] and [n] are C [int]s, [affected_mask] and [tmp] are [u32]. *)
Definition sof_block_write (mem : list byte) (offset : Z) (src : list byte)
    (size : Z) : list byte :=
  let dest := offset in
  let m := to_int (size / 4) in
  let n := to_int (size mod 4) in
  let mem := __iowrite32_copy mem dest src (to_size_t m) in
  if n =? 0 then mem
  else
    let affected_mask := to_u32 (to_int (Z.shiftl 1 (8 * n)) - 1) in
    let tmp := ioread32 mem (dest + to_int (m * 4)) in
    let tmp := Z.land tmp (to_u32 (Z.lnot affected_mask)) in
    let tmp := Z.lor tmp (Z.land (load32 src (to_int (m * 4))) affected_mask) in
    iowrite32 tmp mem (dest + to_int (m * 4)).

(** [sof_block_read(sdev, bar, offset, dest, size)]: the contents of [dest]
    after the call. *)
Definition sof_block_read (mem : list byte) (offset : Z) (size : Z)
    : list byte :=
  memcpy_fromio mem offset size.

(** ** Kernel-side state of a SOF kcontrol *)

(** Constants and the layout of [struct sof_abi_hdr].  They come from headers
    (the SOF ABI and IPC headers) that are not part of the files embedded
    here, so the handlers take them as parameters. *)
Class sof_abi := {
  SOF_ABI_MAGIC : Z;
  SOF_ABI_VERSION : Z;
  SOF_ABI_VERSION_INCOMPATIBLE : Z -> Z -> bool;
  sizeof_sof_abi_hdr : Z;
  offsetof_magic : Z;
  offsetof_abi : Z;
  offsetof_size : Z
}.

(** [sizeof(struct snd_ctl_tlv)]: two [unsigned int]s, [numid] and [length],
    in front of the flexible [tlv] array. *)
Definition sizeof_snd_ctl_tlv : Z := 8.

(** [sizeof(ucontrol->value.bytes.data)]. *)
Definition sizeof_bytes_data : Z := 512.

(** Largest user-space transfer [access_ok] lets through (x86_64 user address
    space). *)
Definition TASK_SIZE_MAX : Z := 2 ^ 47 - 4096.

(** [struct sof_ipc_ctrl_value_chan]. *)
Record sof_ipc_ctrl_value_chan := mk_chan { channel : Z; value : Z }.

(** The payload part of [struct sof_ipc_ctrl_data]: the channel array of a
    value control and the ABI-headed byte buffer of a bytes control.  (In C
    they share storage in a union; a control uses one of them.) *)
Record sof_ipc_ctrl_data := mk_cdata {
  chanv : list sof_ipc_ctrl_value_chan;
  data : list byte
}.

Inductive sof_ipc_cmd :=
| SOF_IPC_COMP_SET_VALUE | SOF_IPC_COMP_GET_VALUE
| SOF_IPC_COMP_SET_DATA | SOF_IPC_COMP_GET_DATA.

Inductive sof_ipc_ctrl_type :=
| SOF_CTRL_TYPE_VALUE_CHAN_GET | SOF_CTRL_TYPE_DATA_GET
| SOF_CTRL_TYPE_DATA_SET.

(** The [ctrl_cmd] argument: one of the fixed commands, or the control's own
    [scontrol->cmd]. *)
Inductive sof_ipc_ctrl_cmd :=
| SOF_CTRL_CMD_VOLUME | SOF_CTRL_CMD_SWITCH | SOF_CTRL_CMD_ENUM
| scontrol_cmd (cmd : Z).

Inductive sof_ipc_stream_cmd :=
| SOF_IPC_STREAM_PCM_PARAMS | SOF_IPC_STREAM_PCM_FREE
| SOF_IPC_STREAM_TRIG_START.

Inductive snd_soc_dapm_type :=
| snd_soc_dapm_pga | snd_soc_dapm_siggen | snd_soc_dapm_other (id : Z).

(** [struct snd_sof_widget], the two fields [get_widget_type] reads. *)
Record snd_sof_widget := mk_widget {
  widget_comp_id : Z;
  widget_id : snd_soc_dapm_type
}.

(** [struct snd_sof_control], the part fixed by topology. *)
Record snd_sof_control := mk_control {
  comp_id : Z;
  num_channels : Z;
  cmd : Z;
  volume_table : list Z
}.

(** Calls that leave the handlers, in program order. *)
Inductive kevent :=
| pm_get_sync
| pm_put_noidle
| pm_mark_last_busy
| pm_put_autosuspend
| ipc_comp_data (ipc_cmd : sof_ipc_cmd) (ctrl_type : sof_ipc_ctrl_type)
    (ctrl_cmd : sof_ipc_ctrl_cmd) (send : bool) (cdata : sof_ipc_ctrl_data)
| ipc_tx_message (stream_cmd : sof_ipc_stream_cmd)
| vfe_active_status (status : Z)
| dpcm_runtime_update.

(** What a handler can change: the control's [control_data], the runtime-PM
    usage counter of [sdev->dev], and the log of outgoing calls. *)
Record sof_dev := mk_dev {
  control_data : sof_ipc_ctrl_data;
  usage_count : Z;
  trace : list kevent
}.

(** The answers of the collaborators during one handler call: the return
    codes of [pm_runtime_get_sync], [pm_runtime_put_autosuspend],
    [snd_sof_ipc_set_get_comp_data] and [sof_ipc_tx_message], what the IPC
    exchange leaves in [control_data], and the widget list of the device. *)
Record platform := mk_platform {
  resume_result : Z;
  autosuspend_result : Z;
  comp_data_result : Z;
  comp_data_reply : bool -> sof_ipc_ctrl_data -> sof_ipc_ctrl_data;
  tx_message_result : sof_ipc_stream_cmd -> Z;
  widget_list : list snd_sof_widget
}.

(** Handlers are state transformers over [sof_dev]. *)
Definition K (A : Type) : Type := sof_dev -> A * sof_dev.

#[global] Instance K_ret : MRet K := fun A (a : A) (w : sof_dev) => (a, w).

#[global] Instance K_bind : MBind K :=
  fun A B (f : A -> K B) (m : K A) (w : sof_dev) =>
    let (a, w1) := m w in f a w1.

Definition log (e : kevent) : K unit :=
  fun w => (tt, mk_dev (control_data w) (usage_count w) (trace w ++ [e])).

Definition get_cdata : K sof_ipc_ctrl_data := fun w => (control_data w, w).

Definition set_cdata (c : sof_ipc_ctrl_data) : K unit :=
  fun w => (tt, mk_dev c (usage_count w) (trace w)).

Definition add_usage (d : Z) : K unit :=
  fun w => (tt, mk_dev (control_data w) (usage_count w + d) (trace w)).

(** A 32-bit little-endian store to ordinary memory at byte offset [off]. *)
Definition store32 (buf : list byte) (off : Z) (v : Z) : list byte :=
  list_inserts (Z.to_nat off) (le_split 4 v) buf.

(** [copy_from_user(to, from + off, n)] where [user] is the mapped user
    memory starting at [from]: the number of bytes that could not be copied
    and the [n] bytes left in the kernel buffer (the uncopied tail is
    zeroed). *)
Definition copy_from_user (user : list byte) (off n : Z) : Z * list byte :=
  let got := take (Z.to_nat n) (drop (Z.to_nat off) user) in
  let left := n - Z.of_nat (length got) in
  (left, got ++ replicate (Z.to_nat left) Byte.x00).

(** [copy_to_user(to + off, from, n)] where [user] is the mapped user memory
    starting at [to] and [n] is an [unsigned long]: the number of bytes that
    could not be copied and the user memory afterwards.  A transfer that
    fails [access_ok] copies nothing. *)
Definition copy_to_user (user : list byte) (off : Z) (from : list byte)
    (n : Z) : Z * list byte :=
  if TASK_SIZE_MAX <? n then (n, user)
  else
    let room := Z.max 0 (Z.of_nat (length user) - off) in
    let done := Z.min n room in
    (n - done, list_inserts (Z.to_nat off) (take (Z.to_nat done) from) user).

(** [cdata->chanv[i].value], and [ucontrol->value.integer.value[i]] or
    [ucontrol->value.enumerated.item[i]].  Reads outside the arrays are
    undefined in C and yield 0 here. *)
Definition chanv_value (cv : list sof_ipc_ctrl_value_chan) (i : nat) : Z :=
  default 0 (value <$> cv !! i).

Definition ucontrol_value (uc : list Z) (i : nat) : Z := default 0 (uc !! i).

(** The indices [0 .. channels-1] a channel loop runs over. *)
Definition channel_range (channels : Z) : list nat := seq 0 (Z.to_nat channels).

(** "read back each channel": [ucontrol[i] = decode(cdata->chanv[i].value)]. *)
Definition read_back_channels (decode : Z -> Z) (channels : Z)
    (cv : list sof_ipc_ctrl_value_chan) (uc : list Z) : list Z :=
  foldl (fun uc i => <[i := decode (chanv_value cv i)]> uc) uc
    (channel_range channels).

(** "update each channel": [cdata->chanv[i].value = encode(ucontrol[i]);
    cdata->chanv[i].channel = i]. *)
Definition update_channels (encode : Z -> Z) (channels : Z) (uc : list Z)
    (cv : list sof_ipc_ctrl_value_chan) : list sof_ipc_ctrl_value_chan :=
  foldl (fun cv i => <[i := mk_chan (Z.of_nat i) (encode (ucontrol_value uc i))]> cv)
    cv (channel_range channels).

(** Loop state of the three loops in [snd_sof_switch_put]: the locals
    [changed] and [new_state], and the channel array. *)
Record switch_loop := mk_switch_loop {
  changed : Z;
  new_state : Z;
  loop_chanv : list sof_ipc_ctrl_value_chan
}.

(** One iteration; [src] is the index the states are read from: [i] for a
    PGA, 0 for every other widget. *)
Definition switch_step (uc : list Z) (src : nat -> nat) (st : switch_loop)
    (i : nat) : switch_loop :=
  let new_state := to_int (ucontrol_value uc (src i)) in
  let old_state := to_int (chanv_value (loop_chanv st) (src i)) in
  mk_switch_loop
    (if new_state =? old_state then changed st else 1)
    new_state
    (<[i := mk_chan (Z.of_nat i) (to_u32 new_state)]> (loop_chanv st)).

Definition switch_loop_run (uc : list Z) (src : nat -> nat) (channels : Z)
    (cv : list sof_ipc_ctrl_value_chan) : switch_loop :=
  foldl (switch_step uc src) (mk_switch_loop 0 0 cv) (channel_range channels).

(** [get_widget_type]: the id of the first widget attached to the control's
    component; [None] stands for the [-EINVAL] of a standalone kcontrol. *)
Fixpoint get_widget_type (widgets : list snd_sof_widget)
    (scontrol : snd_sof_control) : option snd_soc_dapm_type :=
  match widgets with
  | [] => None
  | swidget :: rest =>
      if widget_comp_id swidget =? comp_id scontrol
      then Some (widget_id swidget)
      else get_widget_type rest scontrol
  end.

(** ** The collaborators, as seen from control.c *)

Section Handlers.

Context {abi : sof_abi}.
Variable P : platform.

(** [pm_runtime_get_sync] takes a usage reference whether or not the resume
    succeeds. *)
Definition pm_runtime_get_sync : K Z :=
  log pm_get_sync;; add_usage 1;; mret (resume_result P).

Definition pm_runtime_put_noidle : K unit :=
  log pm_put_noidle;; add_usage (-1).

Definition pm_runtime_mark_last_busy : K unit := log pm_mark_last_busy.

Definition pm_runtime_put_autosuspend : K Z :=
  log pm_put_autosuspend;; add_usage (-1);; mret (autosuspend_result P).

(** [snd_sof_ipc_set_get_comp_data(sdev->ipc, scontrol, ipc_cmd, ctrl_type,
    ctrl_cmd, send)]: one exchange with the DSP carrying [control_data]. *)
Definition snd_sof_ipc_set_get_comp_data (ipc_cmd : sof_ipc_cmd)
    (ctrl_type : sof_ipc_ctrl_type) (ctrl_cmd : sof_ipc_ctrl_cmd)
    (send : bool) : K Z :=
  c ← get_cdata;
  log (ipc_comp_data ipc_cmd ctrl_type ctrl_cmd send c);;
  set_cdata (comp_data_reply P send c);;
  mret (comp_data_result P).

Definition sof_ipc_tx_message (stream_cmd : sof_ipc_stream_cmd) : K Z :=
  log (ipc_tx_message stream_cmd);; mret (tx_message_result P stream_cmd).

(** ** Signal-generator helpers *)

Definition siggen_pcm_params : K Z :=
  sof_ipc_tx_message SOF_IPC_STREAM_PCM_PARAMS.

Definition siggen_trigger (stream_cmd : sof_ipc_stream_cmd) : K Z :=
  sof_ipc_tx_message stream_cmd.

(** [set_vfe_active_status] only touches the sound card's runtime list; it
    is kept as an entry of the log. *)
Definition set_vfe_active_status (status : Z) : K Z :=
  log (vfe_active_status status);; mret 0.

Definition siggen_pipeline_trigger (new_state : Z) : K Z :=
  if new_state =? 0 then
    set_vfe_active_status 0;;
    siggen_trigger SOF_IPC_STREAM_PCM_FREE
  else
    set_vfe_active_status 1;;
    log dpcm_runtime_update;;
    ret ← siggen_pcm_params;
    if ret <? 0 then mret ret
    else siggen_trigger SOF_IPC_STREAM_TRIG_START.

(** ** Volume, switch and enum handlers

    A get handler returns its [int] result together with the caller's
    [ucontrol] array after the call. *)

Definition snd_sof_volume_get (sm_max : Z) (scontrol : snd_sof_control)
    (ucontrol : list Z) : K (Z * list Z) :=
  let channels := num_channels scontrol in
  ret ← pm_runtime_get_sync;
  if ret <? 0 then pm_runtime_put_noidle;; mret (ret, ucontrol)
  else
    snd_sof_ipc_set_get_comp_data SOF_IPC_COMP_GET_VALUE
      SOF_CTRL_TYPE_VALUE_CHAN_GET SOF_CTRL_CMD_VOLUME false;;
    cdata ← get_cdata;
    let ucontrol :=
      read_back_channels
        (fun v => ipc_to_mixer v (volume_table scontrol) (to_int (sm_max + 1)))
        channels (chanv cdata) ucontrol in
    pm_runtime_mark_last_busy;;
    pm_runtime_put_autosuspend;;
    mret (0, ucontrol).

Definition snd_sof_volume_put (sm_max : Z) (scontrol : snd_sof_control)
    (ucontrol : list Z) : K Z :=
  let channels := num_channels scontrol in
  ret ← pm_runtime_get_sync;
  if ret <? 0 then pm_runtime_put_noidle;; mret ret
  else
    cdata ← get_cdata;
    set_cdata (mk_cdata
      (update_channels
         (fun v => mixer_to_ipc (to_u32 v) (volume_table scontrol)
                     (to_int (sm_max + 1)))
         channels ucontrol (chanv cdata))
      (data cdata));;
    snd_sof_ipc_set_get_comp_data SOF_IPC_COMP_SET_VALUE
      SOF_CTRL_TYPE_VALUE_CHAN_GET SOF_CTRL_CMD_VOLUME true;;
    pm_runtime_mark_last_busy;;
    pm_runtime_put_autosuspend;;
    mret 0.

Definition snd_sof_switch_get (scontrol : snd_sof_control)
    (ucontrol : list Z) : K (Z * list Z) :=
  let channels := num_channels scontrol in
  ret ← pm_runtime_get_sync;
  if ret <? 0 then pm_runtime_put_noidle;; mret (ret, ucontrol)
  else
    snd_sof_ipc_set_get_comp_data SOF_IPC_COMP_GET_VALUE
      SOF_CTRL_TYPE_VALUE_CHAN_GET SOF_CTRL_CMD_SWITCH false;;
    cdata ← get_cdata;
    let ucontrol :=
      read_back_channels (fun v => v) channels (chanv cdata) ucontrol in
    pm_runtime_mark_last_busy;;
    pm_runtime_put_autosuspend;;
    mret (0, ucontrol).

(** The three arms of the [switch] in [snd_sof_switch_put]; each one runs
    its channel loop on [cdata->chanv] and notifies the DSP when [changed]
    is set. *)
Definition switch_put_notify : K Z :=
  snd_sof_ipc_set_get_comp_data SOF_IPC_COMP_SET_VALUE
    SOF_CTRL_TYPE_VALUE_CHAN_GET SOF_CTRL_CMD_SWITCH true.

Definition switch_put_arm (widget : option snd_soc_dapm_type)
    (scontrol : snd_sof_control) (ucontrol : list Z) : K unit :=
  let channels := num_channels scontrol in
  cdata ← get_cdata;
  match widget with
  | Some snd_soc_dapm_pga =>
      let st := switch_loop_run ucontrol (fun i => i) channels (chanv cdata) in
      set_cdata (mk_cdata (loop_chanv st) (data cdata));;
      if changed st =? 0 then mret tt else switch_put_notify;; mret tt
  | Some snd_soc_dapm_siggen =>
      let st := switch_loop_run ucontrol (fun _ => 0%nat) channels (chanv cdata) in
      set_cdata (mk_cdata (loop_chanv st) (data cdata));;
      if changed st =? 0 then mret tt
      else
        switch_put_notify;;
        ret ← siggen_pipeline_trigger (new_state st);
        (* on [ret < 0] the C code stores [ret] in [changed], which is not
           read again *)
        mret tt
  | _ =>
      let st := switch_loop_run ucontrol (fun _ => 0%nat) channels (chanv cdata) in
      set_cdata (mk_cdata (loop_chanv st) (data cdata));;
      if changed st =? 0 then mret tt else switch_put_notify;; mret tt
  end.

Definition snd_sof_switch_put (scontrol : snd_sof_control)
    (ucontrol : list Z) : K Z :=
  ret ← pm_runtime_get_sync;
  if ret <? 0 then pm_runtime_put_noidle;; mret ret
  else
    switch_put_arm (get_widget_type (widget_list P) scontrol) scontrol ucontrol;;
    pm_runtime_mark_last_busy;;
    pm_runtime_put_autosuspend;;
    mret 0.

Definition snd_sof_enum_get (scontrol : snd_sof_control)
    (ucontrol : list Z) : K (Z * list Z) :=
  let channels := num_channels scontrol in
  ret ← pm_runtime_get_sync;
  if ret <? 0 then pm_runtime_put_noidle;; mret (ret, ucontrol)
  else
    snd_sof_ipc_set_get_comp_data SOF_IPC_COMP_GET_VALUE
      SOF_CTRL_TYPE_VALUE_CHAN_GET SOF_CTRL_CMD_ENUM false;;
    cdata ← get_cdata;
    let ucontrol :=
      read_back_channels (fun v => v) channels (chanv cdata) ucontrol in
    pm_runtime_mark_last_busy;;
    pm_runtime_put_autosuspend;;
    mret (0, ucontrol).

Definition snd_sof_enum_put (scontrol : snd_sof_control)
    (ucontrol : list Z) : K Z :=
  let channels := num_channels scontrol in
  ret ← pm_runtime_get_sync;
  if ret <? 0 then pm_runtime_put_noidle;; mret ret
  else
    cdata ← get_cdata;
    set_cdata (mk_cdata
      (update_channels to_u32 channels ucontrol (chanv cdata))
      (data cdata));;
    snd_sof_ipc_set_get_comp_data SOF_IPC_COMP_SET_VALUE
      SOF_CTRL_TYPE_VALUE_CHAN_GET SOF_CTRL_CMD_ENUM true;;
    pm_runtime_mark_last_busy;;
    pm_runtime_put_autosuspend;;
    mret 0.

(** ** Bytes handlers

    [be_max] is [be->max] (an [int]); [ucontrol] is
    [ucontrol->value.bytes.data]. *)

(** [data->size + sizeof( *data)], computed in [size_t]. *)
Definition abi_total_size (cdata : sof_ipc_ctrl_data) : Z :=
  to_size_t (load32 (data cdata) offsetof_size + sizeof_sof_abi_hdr).

Definition snd_sof_bytes_get (be_max : Z) (scontrol : snd_sof_control)
    (ucontrol : list byte) : K (Z * list byte) :=
  if sizeof_bytes_data <? to_size_t be_max then mret (- EINVAL, ucontrol)
  else
    ret ← pm_runtime_get_sync;
    if ret <? 0 then pm_runtime_put_noidle;; mret (ret, ucontrol)
    else
      snd_sof_ipc_set_get_comp_data SOF_IPC_COMP_GET_DATA
        SOF_CTRL_TYPE_DATA_GET (scontrol_cmd (cmd scontrol)) false;;
      cdata ← get_cdata;
      let size := abi_total_size cdata in
      let '(ret, ucontrol) :=
        if to_size_t be_max <? size then (- EINVAL, ucontrol)
        else
          (* memcpy(ucontrol->value.bytes.data, data, size) *)
          (ret, list_inserts 0 (take (Z.to_nat size) (data cdata)) ucontrol) in
      pm_runtime_mark_last_busy;;
      pm_runtime_put_autosuspend;;
      mret (ret, ucontrol).

Definition snd_sof_bytes_put (be_max : Z) (scontrol : snd_sof_control)
    (ucontrol : list byte) : K Z :=
  cdata ← get_cdata;
  let size := abi_total_size cdata in
  if sizeof_bytes_data <? to_size_t be_max then mret (- EINVAL)
  else if to_size_t be_max <? size then mret (- EINVAL)
  else
    ret ← pm_runtime_get_sync;
    if ret <? 0 then pm_runtime_put_noidle;; mret ret
    else
      (* memcpy(data, ucontrol->value.bytes.data, size) *)
      set_cdata (mk_cdata (chanv cdata)
        (list_inserts 0 (take (Z.to_nat size) ucontrol) (data cdata)));;
      snd_sof_ipc_set_get_comp_data SOF_IPC_COMP_SET_DATA
        SOF_CTRL_TYPE_DATA_SET (scontrol_cmd (cmd scontrol)) true;;
      pm_runtime_mark_last_busy;;
      pm_runtime_put_autosuspend;;
      mret ret.

(** [snd_sof_bytes_ext_put(kcontrol, binary_data, size)]; [binary_data] is
    the mapped user memory behind the pointer. *)
Definition snd_sof_bytes_ext_put (be_max : Z) (scontrol : snd_sof_control)
    (binary_data : list byte) (size : Z) : K Z :=
  let (left, header) := copy_from_user binary_data 0 sizeof_snd_ctl_tlv in
  if negb (left =? 0) then mret (- EFAULT)
  else
    let header_numid := load32 header 0 in
    let header_length := load32 header 4 in
    if to_u32 be_max <? header_length then mret (- EINVAL)
    else if negb (header_numid =? to_u32 (cmd scontrol)) then mret (- EINVAL)
    else
      let (left, blob) :=
        copy_from_user binary_data sizeof_snd_ctl_tlv header_length in
      cdata ← get_cdata;
      set_cdata (mk_cdata (chanv cdata) (list_inserts 0 blob (data cdata)));;
      if negb (left =? 0) then mret (- EFAULT)
      else
        cdata ← get_cdata;
        if negb (load32 (data cdata) offsetof_magic =? SOF_ABI_MAGIC)
        then mret (- EINVAL)
        else if SOF_ABI_VERSION_INCOMPATIBLE SOF_ABI_VERSION
                  (load32 (data cdata) offsetof_abi)
        then mret (- EINVAL)
        else if to_size_t be_max <? abi_total_size cdata then mret (- EINVAL)
        else
          ret ← pm_runtime_get_sync;
          if ret <? 0 then pm_runtime_put_noidle;; mret ret
          else
            snd_sof_ipc_set_get_comp_data SOF_IPC_COMP_SET_DATA
              SOF_CTRL_TYPE_DATA_SET (scontrol_cmd (cmd scontrol)) true;;
            pm_runtime_mark_last_busy;;
            pm_runtime_put_autosuspend;;
            mret ret.

(** [snd_sof_bytes_ext_get(kcontrol, binary_data, size)]: the result and the
    user memory behind [binary_data] after the call. *)
Definition snd_sof_bytes_ext_get (be_max : Z) (scontrol : snd_sof_control)
    (binary_data : list byte) (size : Z) : K (Z * list byte) :=
  ret ← pm_runtime_get_sync;
  if ret <? 0 then pm_runtime_put_noidle;; mret (ret, binary_data)
  else
    let size := to_u32 (size - sizeof_snd_ctl_tlv) in
    cdata ← get_cdata;
    set_cdata (mk_cdata (chanv cdata)
      (store32 (store32 (data cdata) offsetof_magic SOF_ABI_MAGIC)
         offsetof_abi SOF_ABI_VERSION));;
    ret ← snd_sof_ipc_set_get_comp_data SOF_IPC_COMP_GET_DATA
      SOF_CTRL_TYPE_DATA_GET (scontrol_cmd (cmd scontrol)) false;
    cdata ← get_cdata;
    (* int data_size *)
    let data_size := to_int (abi_total_size cdata) in
    let '(ret, binary_data) :=
      if be_max <? data_size then (- EINVAL, binary_data)
      else
        let header :=
          le_split 4 (to_u32 (cmd scontrol)) ++ le_split 4 (to_u32 data_size) in
        let (left, binary_data) :=
          copy_to_user binary_data 0 header sizeof_snd_ctl_tlv in
        if negb (left =? 0) then (- EFAULT, binary_data)
        else
          let (left, binary_data) :=
            copy_to_user binary_data sizeof_snd_ctl_tlv (data cdata)
              (to_size_t data_size) in
          if negb (left =? 0) then (- EFAULT, binary_data)
          else (ret, binary_data) in
    pm_runtime_mark_last_busy;;
    pm_runtime_put_autosuspend;;
    mret (ret, binary_data).

End Handlers.

(** ** Reading a log *)

(** The [snd_sof_ipc_set_get_comp_data] exchanges in a log: for each one,
    whether it was a set, and the [control_data] it carried. *)
Fixpoint comp_data_calls (t : list kevent)
    : list (sof_ipc_cmd * bool * sof_ipc_ctrl_data) :=
  match t with
  | [] => []
  | ipc_comp_data c _ _ send cdata :: t' => (c, send, cdata) :: comp_data_calls t'
  | _ :: t' => comp_data_calls t'
  end.

(** Every message to the DSP in a log, of either kind. *)
Definition is_ipc (e : kevent) : bool :=
  match e with
  | ipc_comp_data _ _ _ _ _ | ipc_tx_message _ => true
  | _ => false
  end.

Definition ipc_calls (t : list kevent) : list kevent := List.filter is_ipc t.

(** ** A concrete ABI for examples *)

(** Modelled from the spec: [struct sof_abi_hdr], [SOF_ABI_MAGIC],
    [SOF_ABI_VERSION] and [SOF_ABI_VERSION_INCOMPATIBLE] are declared in
    headers that are missing here.  The spec gives the blob header as
    [{ magic: u32, abi_version: u32, payload_size: u32 }] (12 bytes) and calls
    a version incompatible when the major differs or the payload's minor is
    newer.  The magic value and the split of a version word into major (bits
    24 and up) and minor (bits 12 to 23) are placeholders; only examples use
    this instance. *)
Definition spec_abi : sof_abi := {|
  SOF_ABI_MAGIC := 0x00464F53;
  SOF_ABI_VERSION := 0x03001000;
  SOF_ABI_VERSION_INCOMPATIBLE := fun sof_ver client_ver =>
    negb (Z.shiftr sof_ver 24 =? Z.shiftr client_ver 24)
    || (Z.land (Z.shiftr sof_ver 12) 0xfff <? Z.land (Z.shiftr client_ver 12) 0xfff);
  sizeof_sof_abi_hdr := 12;
  offsetof_magic := 0;
  offsetof_abi := 4;
  offsetof_size := 8
|}.

(** A blob in that layout: header, then [payload]. *)
Definition spec_blob (magic abi_version declared_size : Z) (payload : list byte)
    : list byte :=
  le_split 4 magic ++ le_split 4 abi_version ++ le_split 4 declared_size
  ++ payload.

(** A platform on which every collaborator succeeds and the DSP leaves
    [control_data] as it is. *)
Definition quiet_platform : platform :=
  mk_platform 0 0 0 (fun _ c => c) (fun _ => 0) [].

(** A platform whose device cannot be resumed ([-EIO]), one whose IPC
    exchange fails ([-EIO]), and one with a PGA attached to component 7. *)
Definition suspended_platform : platform :=
  mk_platform (-5) 0 0 (fun _ c => c) (fun _ => 0) [].

Definition ipc_failing_platform : platform :=
  mk_platform 0 0 (-5) (fun _ c => c) (fun _ => 0) [].

Definition pga_platform : platform :=
  mk_platform 0 0 0 (fun _ c => c) (fun _ => 0) [mk_widget 7 snd_soc_dapm_pga].

(** A two-channel control on component 7 with command 9 and the volume table
    0, 10, 10, 50, 100; a device caching the values 1 and 2 for it; and a
    device caching what the UI values 1 and 2 encode to through that table. *)
Definition example_control : snd_sof_control :=
  mk_control 7 2 9 [0; 10; 10; 50; 100].

Definition example_dev : sof_dev :=
  mk_dev (mk_cdata [mk_chan 0 1; mk_chan 1 2] []) 0 [].

Definition volume_dev : sof_dev :=
  mk_dev (mk_cdata [mk_chan 0 10; mk_chan 1 10] []) 0 [].

(** A bytes control with a 64-byte buffer holding a valid 4-byte blob; the
    user memory of an extended put, envelope then blob; and one such buffer
    whose blob has a wrong magic. *)
Definition bytes_dev : sof_dev :=
  mk_dev
    (mk_cdata []
       (spec_blob 0x00464F53 0x03001000 4
          [Byte.x01; Byte.x02; Byte.x03; Byte.x04]
        ++ replicate 48 Byte.x00))
    0 [].

Definition tlv_buffer (numid : Z) (blob : list byte) : list byte :=
  le_split 4 numid ++ le_split 4 (Z.of_nat (length blob)) ++ blob.

Definition bad_magic_user : list byte :=
  tlv_buffer 9 (spec_blob 0x1 0x03001000 2 [Byte.xaa; Byte.xbb]).

(** A DSP whose reply to "get data" is a blob declaring [declared] payload
    bytes, in a 64-byte buffer. *)
Definition reply_blob (declared : Z) : list byte :=
  spec_blob 0x00464F53 0x03001000 declared (replicate 52 Byte.x5a).

Definition replying_platform (declared : Z) : platform :=
  mk_platform 0 0 0 (fun _ c => mk_cdata (chanv c) (reply_blob declared))
    (fun _ => 0) [].

(** ** Vocabulary of the statements *)

(** How a handler ends when [pm_runtime_get_sync] fails: the error is the
    result, the usage counter is back where it was, and the only calls made
    are the resume attempt and the [pm_runtime_put_noidle] that drops its
    reference, so no message went to the DSP. *)
Definition resume_failed_outcome (P : platform) (w : sof_dev) (ret : Z)
    (w' : sof_dev) : Prop :=
  ret = resume_result P
  /\ usage_count w' = usage_count w
  /\ trace w' = trace w ++ [pm_get_sync; pm_put_noidle]
  /\ ipc_calls (trace w') = ipc_calls (trace w).

(** How a handler ends when it returns before the resume: no call at all
    and the usage counter untouched. *)
Definition returned_early (w w' : sof_dev) : Prop :=
  usage_count w' = usage_count w /\ trace w' = trace w.

(** The channel array a put handler builds: channel [i] carries [encode] of
    the new value read at index [src i]. *)
Definition new_channel_vector (encode : Z -> Z) (src : nat -> nat)
    (channels : Z) (uc : list Z) : list sof_ipc_ctrl_value_chan :=
  (fun i => mk_chan (Z.of_nat i) (encode (ucontrol_value uc (src i))))
    <$> channel_range channels.

(** The new values equal the cached ones on every channel the loop
    compares, as the [int]s [new_state] and [old_state]. *)
Definition same_as_cached (src : nat -> nat) (channels : Z) (uc : list Z)
    (cv : list sof_ipc_ctrl_value_chan) : Prop :=
  forall i : nat, (i < Z.to_nat channels)%nat ->
    to_int (ucontrol_value uc (src i)) = to_int (chanv_value cv (src i)).

(** Some compared channel differs. *)
Definition differs_from_cached (src : nat -> nat) (channels : Z) (uc : list Z)
    (cv : list sof_ipc_ctrl_value_chan) : Prop :=
  exists i : nat, (i < Z.to_nat channels)%nat
    /\ to_int (ucontrol_value uc (src i)) <> to_int (chanv_value cv (src i)).

(** The set-value exchange that carries the whole new channel array. *)
Definition set_message (sc : snd_sof_control) (uc : list Z) (w : sof_dev)
    (encode : Z -> Z) (src : nat -> nat)
    : sof_ipc_cmd * bool * sof_ipc_ctrl_data :=
  (SOF_IPC_COMP_SET_VALUE, true,
   mk_cdata (new_channel_vector encode src (num_channels sc) uc)
     (data (control_data w))).

(** The calls [siggen_pipeline_trigger] makes for a given [new_state]. *)
Definition siggen_pipeline_log (P : platform) (new_state : Z) : list kevent :=
  if new_state =? 0 then
    [vfe_active_status 0; ipc_tx_message SOF_IPC_STREAM_PCM_FREE]
  else
    [vfe_active_status 1; dpcm_runtime_update;
     ipc_tx_message SOF_IPC_STREAM_PCM_PARAMS]
    ++ (if tx_message_result P SOF_IPC_STREAM_PCM_PARAMS <? 0 then []
        else [ipc_tx_message SOF_IPC_STREAM_TRIG_START]).

(** The index a switch loop reads its states from, per widget type. *)
Definition switch_source (widget : option snd_soc_dapm_type) : nat -> nat :=
  match widget with
  | Some snd_soc_dapm_pga => fun i => i
  | _ => fun _ => 0%nat
  end.

(** What a "get data" exchange leaves in [control_data], and the payload
    size that blob declares. *)
Definition replied (P : platform) (w : sof_dev) : sof_ipc_ctrl_data :=
  comp_data_reply P false (control_data w).

Definition declared_size {abi : sof_abi} (cdata : sof_ipc_ctrl_data) : Z :=
  load32 (data cdata) offsetof_size.

(** ** Register and mailbox I/O (the SOF utility file) *)

(** [writel(value, addr)], [readl(addr)], [writeq(value, addr)] and
    [readq(addr)] on a mapped region. *)
Definition writel (value : Z) (mem : list byte) (addr : Z) : list byte :=
  list_inserts (Z.to_nat addr) (le_split 4 value) mem.

Definition readl (mem : list byte) (addr : Z) : Z :=
  le_combine (take 4 (drop (Z.to_nat addr) mem)).

Definition writeq (value : Z) (mem : list byte) (addr : Z) : list byte :=
  list_inserts (Z.to_nat addr) (le_split 8 value) mem.

Definition readq (mem : list byte) (addr : Z) : Z :=
  le_combine (take 8 (drop (Z.to_nat addr) mem)).

(** [sof_io_write(sdev, addr, value)] and its three siblings; [mem] is the
    region [addr] points into. *)
Definition sof_io_write (mem : list byte) (addr : Z) (value : Z) : list byte :=
  writel value mem addr.

Definition sof_io_read (mem : list byte) (addr : Z) : Z := readl mem addr.

Definition sof_io_write64 (mem : list byte) (addr : Z) (value : Z)
    : list byte :=
  writeq value mem addr.

Definition sof_io_read64 (mem : list byte) (addr : Z) : Z := readq mem addr.

(** [memcpy_toio(dst, src, bytes)]. *)
Definition memcpy_toio (mem : list byte) (dst : Z) (src : list byte)
    (bytes : Z) : list byte :=
  list_inserts (Z.to_nat dst) (take (Z.to_nat bytes) src) mem.

(** [sof_mailbox_write(sdev, offset, message, bytes)] and
    [sof_mailbox_read(sdev, offset, message, bytes)]; [mem] is the memory
    behind [sdev->bar[sdev->mailbox_bar]], and the read returns the contents
    of [message] after the call. *)
Definition sof_mailbox_write (mem : list byte) (offset : Z)
    (message : list byte) (bytes : Z) : list byte :=
  let dest := offset in
  memcpy_toio mem dest message bytes.

Definition sof_mailbox_read (mem : list byte) (offset : Z) (bytes : Z)
    : list byte :=
  let src := offset in
  memcpy_fromio mem src bytes.

(** A table is strictly increasing. *)
Definition strictly_increasing (volume_map : list Z) : Prop :=
  forall (i j : nat) (x y : Z),
    (i < j)%nat ->
    volume_map !! i = Some x -> volume_map !! j = Some y -> x < y.


(** ** Reading a log, continued *)

(** The runtime-PM calls in a log. *)
Definition is_pm (e : kevent) : bool :=
  match e with
  | pm_get_sync | pm_put_noidle | pm_mark_last_busy | pm_put_autosuspend => true
  | _ => false
  end.

Definition pm_calls (t : list kevent) : list kevent := List.filter is_pm t.

(** The runtime-PM shape of one handler call from [w] to [w']: the usage
    counter is back where it was, and the call either logged nothing, or a
    failed resume and the [pm_runtime_put_noidle] that undoes it, or a resume,
    some calls that are not runtime-PM calls, and the pair
    [pm_runtime_mark_last_busy], [pm_runtime_put_autosuspend]. *)
Definition pm_bracketed (w w' : sof_dev) : Prop :=
  usage_count w' = usage_count w
  /\ (trace w' = trace w
      \/ trace w' = trace w ++ [pm_get_sync; pm_put_noidle]
      \/ exists mid : list kevent,
           trace w' = trace w ++ pm_get_sync :: mid
                              ++ [pm_mark_last_busy; pm_put_autosuspend]
           /\ pm_calls mid = []).

(** The platform [P] with another return code for
    [pm_runtime_put_autosuspend]. *)
Definition with_autosuspend_result (r : Z) (P : platform) : platform :=
  mk_platform (resume_result P) r (comp_data_result P) (comp_data_reply P)
    (tx_message_result P) (widget_list P).

(** A DSP that leaves [control_data] as the driver handed it over, on a set
    and on a get. *)
Definition dsp_echoes (P : platform) : Prop :=
  forall (send : bool) (c : sof_ipc_ctrl_data), comp_data_reply P send c = c.

(** ** DAI hardware configurations (the SOF utility file)

    [struct snd_sof_dai], [struct snd_sof_hw_config] and
    [struct sof_ipc_dai_config] are declared outside the embedded files;
    the records hold the fields the two functions touch, plus the SSP
    fields [sof_dai_load_hw_config] prints, as integers that assignments
    copy unchanged.  The fields of [snd_sof_hw_config] carry the prefix
    [hw_] to keep them apart from those of the SSP parameters. *)

Module Dai.

(** How a call ends: it returns, or it reads through a NULL pointer or
    outside an array. *)
Inductive outcome (A : Type) : Type :=
| Returned (a : A)
| Fault.

Arguments Returned {A} a.
Arguments Fault {A}.

Record snd_sof_hw_config := mk_hw_config {
  hw_format : Z;
  hw_mclk_rate : Z;
  hw_bclk_rate : Z;
  hw_fsync_rate : Z;
  hw_tdm_slots : Z;
  hw_tdm_slot_width : Z;
  hw_mclk_direction : Z;
  hw_rx_slots : Z;
  hw_tx_slots : Z
}.

(** [config->ssp]. *)
Record sof_ipc_dai_ssp_params := mk_ssp {
  mclk_rate : Z;
  bclk_rate : Z;
  fsync_rate : Z;
  tdm_slots : Z;
  tdm_slot_width : Z;
  mclk_direction : Z;
  rx_slots : Z;
  tx_slots : Z;
  sample_valid_bits : Z;
  mclk_id : Z;
  quirks : Z
}.

(** [struct sof_ipc_dai_config]; [hdr_cmd] is [config->hdr.cmd]. *)
Record sof_ipc_dai_config := mk_config {
  hdr_cmd : Z;
  type : Z;
  dai_index : Z;
  format : Z;
  ssp : sof_ipc_dai_ssp_params
}.

(** [struct snd_sof_dai]; a NULL [dai_config] is [None], and [hw_config]
    is the array behind the pointer of that name. *)
Record snd_sof_dai := mk_dai {
  dai_config : option sof_ipc_dai_config;
  num_hw_configs : Z;
  cur_hw_config : Z;
  hw_config : list snd_sof_hw_config
}.

Section Functions.

(** The DAI type constant of the IPC headers. *)
Variable SOF_DAI_INTEL_SSP : Z.

(** The nine assignments from [sof_hw_config] to [config]. *)
Definition apply_hw_config (sof_hw_config : snd_sof_hw_config)
    (config : sof_ipc_dai_config) : sof_ipc_dai_config :=
  mk_config (hdr_cmd config) (type config) (dai_index config)
    (hw_format sof_hw_config)
    (mk_ssp (hw_mclk_rate sof_hw_config) (hw_bclk_rate sof_hw_config)
       (hw_fsync_rate sof_hw_config) (hw_tdm_slots sof_hw_config)
       (hw_tdm_slot_width sof_hw_config) (hw_mclk_direction sof_hw_config)
       (hw_rx_slots sof_hw_config) (hw_tx_slots sof_hw_config)
       (sample_valid_bits (ssp config)) (mclk_id (ssp config))
       (quirks (ssp config))).

(** [int sof_dai_set_cur_hw_config(struct snd_sof_dai *dai, int i)]: the
    result and the DAI after the call; a NULL [dai] is [None].  For a NULL
    [dai] the guard holds and its [dev_err] reads [dai->sdev]; a NULL
    [dai_config] passes the guard and is written through further down. *)
Definition sof_dai_set_cur_hw_config (dai : option snd_sof_dai) (i : Z)
    : outcome (Z * snd_sof_dai) :=
  match dai with
  | None => Fault
  | Some d =>
      if match dai_config d with
         | Some config => negb (type config =? SOF_DAI_INTEL_SSP)
         | None => false
         end
      then Returned (- EINVAL, d)
      else if (i <? 0) || (num_hw_configs d <=? i) then Returned (- EINVAL, d)
      else
        match hw_config d !! Z.to_nat i, dai_config d with
        | Some sof_hw_config, Some config =>
            Returned (0, mk_dai (Some (apply_hw_config sof_hw_config config))
                           (num_hw_configs d) i (hw_config d))
        | _, _ => Fault
        end
  end.

(** [int sof_dai_load_hw_config(struct snd_sof_dai *dai)]: the result and
    the messages handed to [sof_ipc_tx_message], each with its command;
    [tx] is the answer of [sof_ipc_tx_message] to a message. *)
Definition sof_dai_load_hw_config (tx : Z -> sof_ipc_dai_config -> Z)
    (dai : snd_sof_dai) : outcome (Z * list (Z * sof_ipc_dai_config)) :=
  match dai_config dai with
  | None => Fault
  | Some config =>
      let ret := tx (hdr_cmd config) config in
      if ret <? 0 then Returned (ret, [(hdr_cmd config, config)])
      else Returned (ret, [(hdr_cmd config, config)])
  end.

End Functions.

End Dai.

(** * Properties *)

(** ** C integer conversions *)

Lemma to_u32_small z : 0 <= z < 2 ^ 32 -> to_u32 z = z.
Proof. intros H. unfold to_u32. apply Z.mod_small. exact H. Qed.

Lemma to_int_small z : - 2 ^ 31 <= z < 2 ^ 31 -> to_int z = z.
Proof. intros H. unfold to_int. rewrite Z.mod_small; lia. Qed.

Lemma to_size_t_small z : 0 <= z < 2 ^ 64 -> to_size_t z = z.
Proof. intros H. unfold to_size_t. apply Z.mod_small. exact H. Qed.

Lemma to_u32_range z : 0 <= to_u32 z < 2 ^ 32.
Proof. unfold to_u32. apply Z.mod_pos_bound. lia. Qed.

Lemma to_int_range z : - 2 ^ 31 <= to_int z < 2 ^ 31.
Proof.
  unfold to_int.
  pose proof (Z.mod_pos_bound (z + 2 ^ 31) (2 ^ 32) ltac:(lia)). lia.
Qed.

(** ** Mixer codec *)

Section CodecFacts.

Variable volume_map : list Z.

Lemma volume_map_at_in_range (i : Z) :
  0 <= i < Z.of_nat (length volume_map) ->
  volume_map !! Z.to_nat i = Some (volume_map_at volume_map i).
Proof.
  intros H. unfold volume_map_at.
  destruct (Z.ltb_spec i 0); [lia|].
  destruct (lookup_lt_is_Some_2 volume_map (Z.to_nat i)) as [x Hx]; [lia|].
  rewrite Hx. reflexivity.
Qed.

Lemma volume_map_at_lookup (i : nat) (x : Z) :
  volume_map !! i = Some x -> volume_map_at volume_map (Z.of_nat i) = x.
Proof.
  intros H. unfold volume_map_at.
  destruct (Z.ltb_spec (Z.of_nat i) 0); [lia|].
  rewrite Nat2Z.id, H. reflexivity.
Qed.

(** What the scan returns, started at counter [i] with [todo] iterations to
    go: either the first position at or after [i] whose entry reaches
    [value], or, when there is none, the last position visited. *)
Lemma ipc_to_mixer_loop_spec (value : Z) (todo : nat) :
  forall i : Z,
    let r := ipc_to_mixer_loop todo i value volume_map in
    (i <= r < i + Z.of_nat todo
     /\ value <= volume_map_at volume_map r
     /\ forall j, i <= j < r -> volume_map_at volume_map j < value)
    \/ (r = i + Z.of_nat todo - 1
        /\ forall j, i <= j < i + Z.of_nat todo ->
                     volume_map_at volume_map j < value).
Proof.
  induction todo as [|todo IH]; intros i; cbn [ipc_to_mixer_loop].
  - right. split; [lia|]. intros j Hj. lia.
  - destruct (Z.leb_spec value (volume_map_at volume_map i)) as [Hge|Hlt].
    + left. repeat split; try lia.
    + destruct (IH (i + 1)) as [(Hr & Hv & Hbelow)|(Hr & Hall)].
      * left. repeat split; try lia.
        intros j Hj. destruct (Z.eq_dec j i) as [->|Hne]; [exact Hlt|].
        apply Hbelow. lia.
      * right. split; [lia|].
        intros j Hj. destruct (Z.eq_dec j i) as [->|Hne]; [exact Hlt|].
        apply Hall. lia.
Qed.

(** The same for the whole function on a table of [size] entries. *)
Lemma ipc_to_mixer_cases (value : Z) :
  let size := Z.of_nat (length volume_map) in
  let r := ipc_to_mixer value volume_map size in
  1 <= size <= INT_MAX ->
  (0 <= r < size
   /\ value <= volume_map_at volume_map r
   /\ forall j, 0 <= j < r -> volume_map_at volume_map j < value)
  \/ (r = size - 1
      /\ forall j, 0 <= j < size -> volume_map_at volume_map j < value).
Proof.
  intros size r Hsize. subst r. unfold ipc_to_mixer, INT_MAX in *.
  subst size. rewrite Nat2Z.id.
  pose proof (ipc_to_mixer_loop_spec value (length volume_map) 0) as H.
  cbv zeta in H.
  destruct H as [(Hr & Hv & Hbelow)|(Hr & Hall)].
  - left. rewrite to_u32_small by lia. repeat split; try lia; assumption.
  - right. rewrite to_u32_small by lia. split; [lia|]. exact Hall.
Qed.

(** The two branches of [mixer_to_ipc]. *)
Lemma mixer_to_ipc_in_table (value : Z) :
  let size := Z.of_nat (length volume_map) in
  size <= INT_MAX ->
  0 <= value < size ->
  volume_map !! Z.to_nat value = Some (mixer_to_ipc value volume_map size).
Proof.
  intros size Hsize Hvalue. unfold mixer_to_ipc, INT_MAX in *.
  rewrite (to_u32_small value), (to_u32_small size) by lia.
  destruct (Z.leb_spec size value); [lia|].
  apply volume_map_at_in_range. lia.
Qed.

Lemma mixer_to_ipc_past_end (value : Z) :
  let size := Z.of_nat (length volume_map) in
  1 <= size <= INT_MAX ->
  size <= value < 2 ^ 32 ->
  volume_map !! (length volume_map - 1)%nat
  = Some (mixer_to_ipc value volume_map size).
Proof.
  intros size Hsize Hvalue. unfold mixer_to_ipc, INT_MAX in *.
  rewrite (to_u32_small value), (to_u32_small size) by lia.
  destruct (Z.leb_spec size value); [|lia].
  replace (length volume_map - 1)%nat with (Z.to_nat (size - 1)) by lia.
  apply volume_map_at_in_range. lia.
Qed.

(** An argument outside [unsigned int] acts as its conversion. *)
Lemma mixer_to_ipc_converts (value size : Z) :
  mixer_to_ipc value volume_map size
  = mixer_to_ipc (to_u32 value) volume_map size.
Proof.
  unfold mixer_to_ipc, to_u32. rewrite Z.mod_mod by lia. reflexivity.
Qed.

End CodecFacts.

(** The codec on the table 0, 10, 10, 50, 100. *)
Example mixer_to_ipc_step : mixer_to_ipc 1 [0; 10; 10; 50; 100] 5 = 10.
Proof. reflexivity. Qed.

Example mixer_to_ipc_clamped : mixer_to_ipc 5 [0; 10; 10; 50; 100] 5 = 100.
Proof. reflexivity. Qed.

(** A [long] outside [unsigned int] wraps before it is compared: 2^32 + 1
    selects entry 1, and -1 becomes the largest [unsigned int] and is
    clamped. *)
Example mixer_to_ipc_wraps :
  mixer_to_ipc (2 ^ 32 + 1) [0; 10; 10; 50; 100] 5 = 10
  /\ mixer_to_ipc (-1) [0; 10; 10; 50; 100] 5 = 100.
Proof. split; reflexivity. Qed.

Example ipc_to_mixer_no_entry : ipc_to_mixer 101 [0; 10; 10; 50; 100] 5 = 4.
Proof. reflexivity. Qed.

(** C5.  [mixer_to_ipc] on a table of at least one entry, for every UI
    value of its [unsigned int] parameter: a UI value at or past the table
    size yields the last entry (clamping), any other UI value yields the
    entry at that index. *)
Theorem mixer_to_ipc_clamps (volume_map : list Z) (value : Z) :
  let size := Z.of_nat (length volume_map) in
  1 <= size <= INT_MAX ->
  0 <= value < 2 ^ 32 ->
  (size <= value ->
   volume_map !! (length volume_map - 1)%nat
   = Some (mixer_to_ipc value volume_map size))
  /\ (value < size ->
      volume_map !! Z.to_nat value
      = Some (mixer_to_ipc value volume_map size)).
Proof.
  intros size Hsize Hvalue. split; intros Hcmp.
  - apply mixer_to_ipc_past_end; [assumption | lia].
  - apply mixer_to_ipc_in_table; lia.
Qed.

Lemma mixer_to_ipc_clamps_witness :
  [0; 10; 10; 50; 100] !! 4%nat
  = Some (mixer_to_ipc 5 [0; 10; 10; 50; 100] 5).
Proof.
  apply (mixer_to_ipc_clamps [0; 10; 10; 50; 100] 5); cbv [INT_MAX]; simpl; lia.
Defined.

(** C6.  [ipc_to_mixer] on a table of at least one entry returns the lowest
    index whose entry is at least the device value, and the table size minus
    one when no entry qualifies; on the table 0, 10, 10, 50, 100 the device
    value 10 maps to index 1, the first of the two matching entries. *)
Theorem ipc_to_mixer_first_match (volume_map : list Z) (value : Z) :
  let size := Z.of_nat (length volume_map) in
  let r := ipc_to_mixer value volume_map size in
  1 <= size <= INT_MAX ->
  ((exists x, volume_map !! Z.to_nat r = Some x /\ value <= x
              /\ 0 <= r < size
              /\ forall (j : nat) (y : Z),
                   Z.of_nat j < r -> volume_map !! j = Some y -> y < value)
   \/ (r = size - 1
       /\ forall (j : nat) (y : Z), volume_map !! j = Some y -> y < value))
  /\ ipc_to_mixer 10 [0; 10; 10; 50; 100] 5 = 1.
Proof.
  intros size r Hsize. split; [|reflexivity].
  destruct (ipc_to_mixer_cases volume_map value Hsize)
    as [(Hr & Hv & Hbelow)|(Hr & Hall)]; subst r size.
  - left. eexists.
    split; [apply volume_map_at_in_range; exact Hr|].
    split; [exact Hv|]. split; [exact Hr|].
    intros j y Hj Hy. rewrite <- (volume_map_at_lookup _ _ _ Hy).
    apply Hbelow. lia.
  - right. split; [exact Hr|].
    intros j y Hy. rewrite <- (volume_map_at_lookup _ _ _ Hy).
    apply Hall. apply lookup_lt_Some in Hy. lia.
Qed.

Lemma ipc_to_mixer_first_match_witness :
  ipc_to_mixer 10 [0; 10; 10; 50; 100] 5 = 1.
Proof.
  apply (ipc_to_mixer_first_match [0; 10; 10; 50; 100] 10).
  cbv [INT_MAX]; simpl; lia.
Defined.

(** C7.  On a non-decreasing table, encoding a UI value inside the table with
    [mixer_to_ipc], decoding the result with [ipc_to_mixer] and indexing the
    table again gives back the same device value; the recovered index itself
    may differ from the UI value (UI value 2 on 0, 10, 10, 50, 100 comes back
    as index 1). *)
Theorem quantization_idempotent (volume_map : list Z) (ui_value : Z) :
  let size := Z.of_nat (length volume_map) in
  let device := mixer_to_ipc ui_value volume_map size in
  non_decreasing volume_map ->
  size <= INT_MAX ->
  0 <= ui_value < size ->
  volume_map !! Z.to_nat (ipc_to_mixer device volume_map size) = Some device
  /\ ipc_to_mixer (mixer_to_ipc 2 [0; 10; 10; 50; 100] 5) [0; 10; 10; 50; 100] 5
     = 1.
Proof.
  intros size device Hmono Hsize Hui. split; [|reflexivity].
  assert (Hsz : 1 <= size <= INT_MAX) by lia.
  pose proof (mixer_to_ipc_in_table volume_map ui_value Hsize Hui) as Hin.
  destruct (ipc_to_mixer_cases volume_map device Hsz)
    as [(Hr & Hv & Hbelow)|(Hr & Hall)]; subst device size.
  - set (r := ipc_to_mixer _ volume_map _) in *.
    pose proof (volume_map_at_in_range volume_map ui_value Hui) as Hat.
    rewrite Hin in Hat. injection Hat as Hat. symmetry in Hat.
    pose proof (volume_map_at_in_range volume_map r Hr) as Hlook.
    rewrite Hlook. f_equal.
    (* the scan stops at or before [ui_value], whose entry is [device] *)
    assert (Hle : r <= ui_value).
    { destruct (Z.le_gt_cases r ui_value) as [|Hgt]; [assumption|].
      assert (Hj : 0 <= ui_value < r) by lia.
      apply Hbelow in Hj.
      rewrite Hat in Hj. lia. }
    pose proof (Hmono (Z.to_nat r) (Z.to_nat ui_value) _ _ ltac:(lia) Hlook Hin).
    lia.
  - specialize (Hall ui_value Hui).
    pose proof (volume_map_at_in_range volume_map ui_value Hui) as Hat.
    rewrite Hin in Hat. injection Hat as Hat. lia.
Qed.

Lemma quantization_idempotent_witness :
  [0; 10; 10; 50; 100]
    !! Z.to_nat (ipc_to_mixer (mixer_to_ipc 2 [0; 10; 10; 50; 100] 5)
                   [0; 10; 10; 50; 100] 5)
  = Some (mixer_to_ipc 2 [0; 10; 10; 50; 100] 5).
Proof.
  refine (proj1 (quantization_idempotent [0; 10; 10; 50; 100] 2 _ _ _)).
  - intros i j x y Hij Hx Hy.
    do 5 (destruct i as [|i]; [do 5 (destruct j as [|j]; [simpl in *; simplify_eq; lia|]); simpl in Hy; discriminate|]).
    simpl in Hx. discriminate.
  - cbv [INT_MAX]; simpl; lia.
  - simpl; lia.
Defined.


(** ** Block transfer *)

Section BlockFacts.

Lemma byte_of_Z_eq a b : a mod 2 ^ 8 = b mod 2 ^ 8 -> byte.of_Z a = byte.of_Z b.
Proof.
  intros H. apply byte.unsigned_inj. rewrite !byte.unsigned_of_Z. exact H.
Qed.

Lemma le_split_4 z :
  le_split 4 z
  = [byte.of_Z z; byte.of_Z (Z.shiftr z 8);
     byte.of_Z (Z.shiftr (Z.shiftr z 8) 8);
     byte.of_Z (Z.shiftr (Z.shiftr (Z.shiftr z 8) 8) 8)].
Proof. reflexivity. Qed.

Lemma merge_word_bytes (n : nat) (old new : Z) :
  (1 <= n <= 3)%nat ->
  let mask := Z.ones (8 * Z.of_nat n) in
  le_split 4 (Z.lor (Z.land old (to_u32 (Z.lnot mask))) (Z.land new mask))
  = take n (le_split 4 new) ++ drop n (le_split 4 old).
Proof.
  intros Hn mask. subst mask. unfold to_u32.
  rewrite !le_split_4.
  destruct n as [|[|[|[|n]]]]; try lia;
    cbn [take drop app firstn skipn Z.of_nat Pos.of_succ_nat Pos.succ Z.mul Pos.mul Pos.add];
    repeat (apply (f_equal2 cons); [apply byte_of_Z_eq|]); try reflexivity;
    rewrite <- !Z.land_ones by lia;
    rewrite ?Z.shiftr_shiftr by lia;
    Z.bitblast.
Qed.


Lemma le_split_load32 (buf : list byte) (off : Z) :
  0 <= off -> off + 4 <= Z.of_nat (length buf) ->
  le_split 4 (load32 buf off) = take 4 (drop (Z.to_nat off) buf).
Proof.
  intros Hoff Hlen. unfold load32. apply split_le_combine'.
  rewrite length_take, length_drop. lia.
Qed.

Lemma take_le_split_load32 (n : nat) (buf : list byte) (off : Z) :
  0 <= off -> (n <= 4)%nat -> off + Z.of_nat n <= Z.of_nat (length buf) ->
  take n (le_split 4 (load32 buf off)) = take n (drop (Z.to_nat off) buf).
Proof.
  intros Hoff Hn Hlen. unfold load32.
  set (bs := take 4 (drop (Z.to_nat off) buf)).
  assert (Hbs : (n <= length bs <= 4)%nat).
  { subst bs. rewrite length_take, length_drop. lia. }
  rewrite <- (le_combine_app_0 bs (4 - length bs)).
  rewrite split_le_combine' by (rewrite length_app, repeat_length; lia).
  rewrite take_app_le by lia.
  subst bs. rewrite take_take. f_equal. lia.
Qed.

Lemma iowrite32_copy_loop_inserts (from : list byte) (to : Z) (todo : nat) :
  forall (k : Z) (mem : list byte),
    0 <= k -> 0 <= to ->
    4 * (k + Z.of_nat todo) <= Z.of_nat (length from) ->
    iowrite32_copy_loop todo k mem to from
    = list_inserts (Z.to_nat (to + 4 * k))
        (take (4 * todo) (drop (Z.to_nat (4 * k)) from)) mem.
Proof.
  induction todo as [|todo IH]; intros k mem Hk Hto Hlen.
  - reflexivity.
  - cbn [iowrite32_copy_loop]. rewrite IH by lia.
    unfold iowrite32. rewrite le_split_load32 by lia.
    replace (4 * S todo)%nat with (4 + 4 * todo)%nat by lia.
    rewrite <- take_take_drop, list_inserts_app_l, drop_drop.
    rewrite length_take, length_drop.
    f_equal; [lia|]. do 2 f_equal. lia.
Qed.


Lemma list_inserts_keep_tail (i m : nat) (xs mem : list byte) :
  list_inserts i (xs ++ drop (length xs) (take m (drop i mem))) mem
  = list_inserts i xs mem.
Proof.
  apply list_eq. intros j.
  destruct (decide (j < i)%nat) as [Hlt|Hge].
  { rewrite !list_lookup_inserts_lt by lia. reflexivity. }
  destruct (decide (length mem <= j)%nat) as [Hout|Hin].
  { rewrite !lookup_ge_None_2 by (rewrite ?length_inserts; lia). reflexivity. }
  destruct (decide (j < i + length xs)%nat) as [Hxs|Htail].
  { rewrite !list_lookup_inserts by (rewrite ?length_app; lia).
    rewrite lookup_app_l by lia. reflexivity. }
  rewrite (list_lookup_inserts_ge _ _ xs) by lia.
  set (tail := drop (length xs) (take m (drop i mem))).
  destruct (decide (j < i + length (xs ++ tail))%nat) as [Hcov|Hpast].
  - rewrite list_lookup_inserts by lia.
    rewrite lookup_app_r by lia. subst tail.
    rewrite length_app, length_drop, length_take, length_drop in Hcov.
    rewrite lookup_drop, lookup_take_lt, lookup_drop by lia.
    f_equal. lia.
  - rewrite list_lookup_inserts_ge by lia. reflexivity.
Qed.

Lemma sof_block_write_inserts (mem : list byte) (offset : Z) (src : list byte)
    (size : Z) :
  0 <= offset ->
  0 <= size <= INT_MAX ->
  size <= Z.of_nat (length src) ->
  offset + 4 * ((size + 3) / 4) <= Z.of_nat (length mem) ->
  sof_block_write mem offset src size
  = list_inserts (Z.to_nat offset) (take (Z.to_nat size) src) mem.
Proof.
  unfold INT_MAX. intros Hoff Hsize Hsrc Hmem. unfold sof_block_write.
  set (m := size / 4). set (n := size mod 4).
  assert (Hm : 0 <= m /\ 0 <= n < 4 /\ size = 4 * m + n
               /\ (n <> 0 -> 4 * ((size + 3) / 4) = 4 * m + 4))
    by (subst m n; Z.div_mod_to_equations; lia).
  destruct Hm as (Hm & Hn & Hsplit & Hceil).
  clearbody m n.
  rewrite (to_int_small m), (to_int_small n), (to_int_small (m * 4)),
    (to_size_t_small m) by lia.
  unfold __iowrite32_copy.
  rewrite iowrite32_copy_loop_inserts by lia.
  replace (offset + 4 * 0) with offset by lia. cbn [Z.mul Z.to_nat drop].
  destruct (Z.eqb_spec n 0) as [Hz|Hnz].
  - do 2 f_equal. lia.
  - specialize (Hceil Hnz).
    set (mem1 := list_inserts (Z.to_nat offset) (take (4 * Z.to_nat m) src) mem).
    assert (Hmask : to_u32 (to_int (Z.shiftl 1 (8 * n)) - 1)
                    = Z.ones (8 * Z.of_nat (Z.to_nat n))).
    { assert (Hcases : n = 1 \/ n = 2 \/ n = 3) by lia.
      destruct Hcases as [-> | [-> | ->]]; reflexivity. }
    rewrite Hmask. unfold iowrite32.
    rewrite merge_word_bytes by lia.
    rewrite take_le_split_load32 by lia.
    unfold ioread32.
    rewrite (split_le_combine' (take 4 (drop (Z.to_nat (offset + m * 4)) mem1)))
      by (subst mem1; rewrite length_take, length_drop, length_inserts; lia).
    set (xs := take (Z.to_nat n) (drop (Z.to_nat (m * 4)) src)).
    assert (Hxs : length xs = Z.to_nat n).
    { subst xs. rewrite length_take, length_drop. lia. }
    rewrite <- Hxs at 1. rewrite list_inserts_keep_tail.
    subst mem1 xs.
    replace (Z.to_nat (offset + m * 4))
      with (length (take (4 * Z.to_nat m) src) + Z.to_nat offset)%nat
      by (rewrite length_take; lia).
    rewrite <- list_inserts_app_l.
    replace (Z.to_nat (m * 4)) with (4 * Z.to_nat m)%nat by lia.
    rewrite take_take_drop. do 2 f_equal. lia.
Qed.


Lemma sof_block_read_inserts (mem bs : list byte) (offset : Z) :
  0 <= offset ->
  offset + Z.of_nat (length bs) <= Z.of_nat (length mem) ->
  sof_block_read (list_inserts (Z.to_nat offset) bs mem) offset
    (Z.of_nat (length bs)) = bs.
Proof.
  intros Hoff Hlen. unfold sof_block_read, memcpy_fromio. rewrite Nat2Z.id.
  apply list_eq. intros j.
  destruct (decide (j < length bs)%nat) as [Hj|Hj].
  - rewrite lookup_take_lt, lookup_drop by lia.
    rewrite list_lookup_inserts by lia. f_equal. lia.
  - rewrite lookup_take_ge by lia. symmetry. apply lookup_ge_None_2. lia.
Qed.

End BlockFacts.

(** Seven bytes written at offset 2 of a twelve-byte region: one whole word,
    then three bytes patched into the word at offset 6, whose fourth byte
    stays. *)
Example sof_block_write_seven_bytes :
  sof_block_write (replicate 12 Byte.xaa) 2
    [Byte.x01; Byte.x02; Byte.x03; Byte.x04; Byte.x05; Byte.x06; Byte.x07] 7
  = [Byte.xaa; Byte.xaa; Byte.x01; Byte.x02; Byte.x03; Byte.x04; Byte.x05;
     Byte.x06; Byte.x07; Byte.xaa; Byte.xaa; Byte.xaa].
Proof. vm_compute. reflexivity. Qed.

(** C4.  Writing [size] bytes of [src] with [sof_block_write] and reading
    [size] bytes back with [sof_block_read] at the same offset returns the
    source bytes; the region keeps its length and every byte outside
    [offset, offset + size) keeps its value, in particular the bytes of the
    last destination word above the [size mod 4] bytes patched by the
    read-modify-write.  The call's accesses lie inside the region, [src]
    holds at least [size] bytes, and [size] fits the [int] locals of the
    function. *)
Theorem sof_block_write_read_roundtrip (mem : list byte) (offset : Z)
    (src : list byte) (size : Z) :
  0 <= offset ->
  0 <= size <= INT_MAX ->
  size <= Z.of_nat (length src) ->
  offset + 4 * ((size + 3) / 4) <= Z.of_nat (length mem) ->
  let mem' := sof_block_write mem offset src size in
  sof_block_read mem' offset size = take (Z.to_nat size) src
  /\ length mem' = length mem
  /\ (forall j : nat,
        Z.of_nat j < offset \/ offset + size <= Z.of_nat j ->
        mem' !! j = mem !! j)
  /\ (forall k : Z,
        size mod 4 <> 0 -> size mod 4 <= k < 4 ->
        mem' !! Z.to_nat (offset + 4 * (size / 4) + k)
        = mem !! Z.to_nat (offset + 4 * (size / 4) + k)).
Proof.
  intros Hoff Hsize Hsrc Hmem mem'. subst mem'.
  rewrite sof_block_write_inserts by assumption.
  set (bs := take (Z.to_nat size) src).
  assert (Hbs : Z.of_nat (length bs) = size).
  { subst bs. rewrite length_take. lia. }
  assert (Hceil : size <= 4 * ((size + 3) / 4)) by (Z.div_mod_to_equations; lia).
  assert (Hframe : forall j : nat,
             Z.of_nat j < offset \/ offset + size <= Z.of_nat j ->
             list_inserts (Z.to_nat offset) bs mem !! j = mem !! j).
  { intros j [Hlo|Hhi].
    - apply list_lookup_inserts_lt. lia.
    - apply list_lookup_inserts_ge. lia. }
  split; [|split; [|split]].
  - clearbody bs. rewrite <- Hbs. apply sof_block_read_inserts; lia.
  - apply length_inserts.
  - exact Hframe.
  - intros k Hn Hk. apply Hframe. right.
    rewrite Z2Nat.id by (Z.div_mod_to_equations; lia).
    Z.div_mod_to_equations; lia.
Qed.

Lemma sof_block_write_read_roundtrip_witness :
  sof_block_read
    (sof_block_write (replicate 12 Byte.xaa) 2
       [Byte.x01; Byte.x02; Byte.x03; Byte.x04; Byte.x05; Byte.x06; Byte.x07] 7)
    2 7
  = [Byte.x01; Byte.x02; Byte.x03; Byte.x04; Byte.x05; Byte.x06; Byte.x07].
Proof.
  refine (proj1 (sof_block_write_read_roundtrip (replicate 12 Byte.xaa) 2
    [Byte.x01; Byte.x02; Byte.x03; Byte.x04; Byte.x05; Byte.x06; Byte.x07] 7
    _ _ _ _)).
  - lia.
  - cbv [INT_MAX]. lia.
  - simpl. lia.
  - vm_compute. discriminate.
Defined.

(** ** Handlers *)

(** Unfold one handler call down to the pair it returns. *)
Ltac unfold_handler :=
  cbv [snd_sof_volume_get snd_sof_volume_put snd_sof_switch_get
       snd_sof_switch_put snd_sof_enum_get snd_sof_enum_put
       snd_sof_bytes_get snd_sof_bytes_put snd_sof_bytes_ext_put
       snd_sof_bytes_ext_get
       snd_sof_ipc_set_get_comp_data
       pm_runtime_get_sync pm_runtime_put_noidle pm_runtime_mark_last_busy
       pm_runtime_put_autosuspend
       mbind mret K_bind K_ret log get_cdata set_cdata add_usage
       trace control_data usage_count].

(** ** Copies from user memory *)

Lemma copy_from_user_ok (user : list byte) (off n : Z) :
  0 <= off -> 0 <= n -> off + n <= Z.of_nat (length user) ->
  copy_from_user user off n
  = (0, take (Z.to_nat n) (drop (Z.to_nat off) user)).
Proof.
  intros Hoff Hn Hlen. unfold copy_from_user.
  rewrite length_take, length_drop.
  replace (n - Z.of_nat (Z.to_nat n `min` (length user - Z.to_nat off)))
    with 0 by lia.
  cbn [Z.to_nat replicate]. rewrite app_nil_r. reflexivity.
Qed.

Lemma load32_range (buf : list byte) (off : Z) : 0 <= load32 buf off < 2 ^ 32.
Proof.
  unfold load32.
  pose proof (le_combine_bound (take 4 (drop (Z.to_nat off) buf))) as H.
  rewrite length_take in H.
  assert (2 ^ (8 * Z.of_nat (4 `min` length (drop (Z.to_nat off) buf)))
          <= 2 ^ 32) by (apply Z.pow_le_mono_r; lia).
  lia.
Qed.

(** A copy that runs past the mapped user memory reports bytes left. *)
Lemma copy_from_user_short (user : list byte) (off n : Z) :
  0 <= off <= Z.of_nat (length user) -> 0 <= n ->
  Z.of_nat (length user) < off + n ->
  (fst (copy_from_user user off n) =? 0) = false.
Proof.
  intros Hoff Hn Hlen. unfold copy_from_user. cbn [fst].
  rewrite length_take, length_drop. apply Z.eqb_neq. lia.
Qed.

Section ResumeFailure.

Context {abi : sof_abi}.
Variable P : platform.
Hypothesis resume_fails : resume_result P < 0.

Lemma resume_fails_b : (resume_result P <? 0) = true.
Proof. apply Z.ltb_lt. exact resume_fails. Qed.

Lemma resume_failed_intro (cd cd' : sof_ipc_ctrl_data) (u : Z)
    (t : list kevent) :
  resume_failed_outcome P (mk_dev cd u t) (resume_result P)
    (mk_dev cd' (u + 1 + -1) ((t ++ [pm_get_sync]) ++ [pm_put_noidle])).
Proof.
  unfold resume_failed_outcome, ipc_calls. cbn [usage_count trace].
  rewrite <- app_assoc, List.filter_app. cbn [List.filter is_ipc app].
  rewrite app_nil_r.
  split; [reflexivity|]. split; [lia|]. split; reflexivity.
Qed.

Lemma returned_early_refl (w : sof_dev) : returned_early w w.
Proof. split; reflexivity. Qed.

Lemma volume_get_resume_failure sm_max sc uc w :
  let '(ret, uc', w') := snd_sof_volume_get P sm_max sc uc w in
  resume_failed_outcome P w ret w' /\ uc' = uc.
Proof.
  destruct w as [cd u t]. unfold_handler. rewrite resume_fails_b.
  split; [apply resume_failed_intro | reflexivity].
Qed.

Lemma volume_put_resume_failure sm_max sc uc w :
  let '(ret, w') := snd_sof_volume_put P sm_max sc uc w in
  resume_failed_outcome P w ret w'.
Proof.
  destruct w as [cd u t]. unfold_handler. rewrite resume_fails_b.
  apply resume_failed_intro.
Qed.

Lemma switch_get_resume_failure sc uc w :
  let '(ret, uc', w') := snd_sof_switch_get P sc uc w in
  resume_failed_outcome P w ret w' /\ uc' = uc.
Proof.
  destruct w as [cd u t]. unfold_handler. rewrite resume_fails_b.
  split; [apply resume_failed_intro | reflexivity].
Qed.

Lemma switch_put_resume_failure sc uc w :
  let '(ret, w') := snd_sof_switch_put P sc uc w in
  resume_failed_outcome P w ret w'.
Proof.
  destruct w as [cd u t]. unfold_handler. rewrite resume_fails_b.
  apply resume_failed_intro.
Qed.

Lemma enum_get_resume_failure sc uc w :
  let '(ret, uc', w') := snd_sof_enum_get P sc uc w in
  resume_failed_outcome P w ret w' /\ uc' = uc.
Proof.
  destruct w as [cd u t]. unfold_handler. rewrite resume_fails_b.
  split; [apply resume_failed_intro | reflexivity].
Qed.

Lemma enum_put_resume_failure sc uc w :
  let '(ret, w') := snd_sof_enum_put P sc uc w in
  resume_failed_outcome P w ret w'.
Proof.
  destruct w as [cd u t]. unfold_handler. rewrite resume_fails_b.
  apply resume_failed_intro.
Qed.

Lemma bytes_get_resume_failure be_max sc uc w :
  let '(ret, uc', w') := snd_sof_bytes_get P be_max sc uc w in
  (if sizeof_bytes_data <? to_size_t be_max
   then ret = - EINVAL /\ returned_early w w'
   else resume_failed_outcome P w ret w')
  /\ uc' = uc.
Proof.
  destruct w as [cd u t]. unfold_handler.
  destruct (sizeof_bytes_data <? to_size_t be_max).
  - split; [split; [reflexivity | apply returned_early_refl] | reflexivity].
  - rewrite resume_fails_b.
    split; [apply resume_failed_intro | reflexivity].
Qed.

Lemma bytes_put_resume_failure be_max sc uc w :
  let '(ret, w') := snd_sof_bytes_put P be_max sc uc w in
  if (sizeof_bytes_data <? to_size_t be_max)
     || (to_size_t be_max <? abi_total_size (control_data w))
  then ret = - EINVAL /\ returned_early w w'
  else resume_failed_outcome P w ret w'.
Proof.
  destruct w as [cd u t]. unfold_handler.
  destruct (sizeof_bytes_data <? to_size_t be_max); cbn [orb].
  - split; [reflexivity | apply returned_early_refl].
  - destruct (to_size_t be_max <? abi_total_size cd).
    + split; [reflexivity | apply returned_early_refl].
    + rewrite resume_fails_b. apply resume_failed_intro.
Qed.

(** [snd_sof_bytes_ext_put] checks the caller's memory before it resumes:
    an unreadable envelope, an envelope over the maximum or for another
    control, an unreadable blob, and a blob whose header is wrong each end
    the call early; a put that passes them all reaches the resume. *)
Lemma bytes_ext_put_resume_failure be_max sc user size w :
  let header := take 8 user in
  let blob := take (Z.to_nat (load32 header 4)) (drop 8 user) in
  let cdata' :=
    mk_cdata (chanv (control_data w))
      (list_inserts 0 blob (data (control_data w))) in
  let '(ret, w') := snd_sof_bytes_ext_put P be_max sc user size w in
  if Z.of_nat (length user) <? sizeof_snd_ctl_tlv
  then ret = - EFAULT /\ returned_early w w'
  else if (to_u32 be_max <? load32 header 4)
          || negb (load32 header 0 =? to_u32 (cmd sc))
  then ret = - EINVAL /\ returned_early w w'
  else if Z.of_nat (length user) <? sizeof_snd_ctl_tlv + load32 header 4
  then ret = - EFAULT /\ returned_early w w'
  else if negb (load32 (data cdata') offsetof_magic =? SOF_ABI_MAGIC)
          || SOF_ABI_VERSION_INCOMPATIBLE SOF_ABI_VERSION
               (load32 (data cdata') offsetof_abi)
          || (to_size_t be_max <? abi_total_size cdata')
  then ret = - EINVAL /\ returned_early w w'
  else resume_failed_outcome P w ret w'.
Proof.
  intros header blob cdata'. subst cdata' blob header.
  destruct w as [cd u t]. unfold_handler. unfold sizeof_snd_ctl_tlv.
  cbn [control_data chanv data].
  destruct (Z.ltb_spec (Z.of_nat (length user)) 8) as [Hshort|Hmapped].
  { pose proof (copy_from_user_short user 0 8 ltac:(lia) ltac:(lia)
                  ltac:(lia)) as Hleft.
    destruct (copy_from_user user 0 8) as [left got].
    cbn [fst] in Hleft. rewrite Hleft. cbn [negb].
    split; [reflexivity | apply returned_early_refl]. }
  rewrite copy_from_user_ok by lia.
  change (Z.to_nat 8) with 8%nat. change (Z.to_nat 0) with 0%nat.
  rewrite drop_0. cbn [Z.eqb negb].
  pose proof (load32_range (take 8 user) 4) as Hrange.
  destruct (to_u32 be_max <? load32 (take 8 user) 4); cbn [orb];
    [split; [reflexivity | apply returned_early_refl]|].
  destruct (load32 (take 8 user) 0 =? to_u32 (cmd sc)); cbn [negb];
    [|split; [reflexivity | apply returned_early_refl]].
  destruct (Z.ltb_spec (Z.of_nat (length user))
              (8 + load32 (take 8 user) 4)) as [Hblob|Hblob].
  { pose proof (copy_from_user_short user 8 (load32 (take 8 user) 4)
                  ltac:(lia) ltac:(lia) Hblob) as Hleft.
    destruct (copy_from_user user 8 (load32 (take 8 user) 4)) as [left got].
    cbn [fst] in Hleft. rewrite Hleft. cbn [negb].
    split; [reflexivity | split; reflexivity]. }
  rewrite copy_from_user_ok by lia.
  change (Z.to_nat 8) with 8%nat. cbn [Z.eqb negb].
  cbn [control_data usage_count trace chanv data].
  set (copied := list_inserts 0 _ (data cd)).
  destruct (load32 copied offsetof_magic =? SOF_ABI_MAGIC); cbn [negb orb];
    [|split; [reflexivity | split; reflexivity]].
  destruct (SOF_ABI_VERSION_INCOMPATIBLE SOF_ABI_VERSION
              (load32 copied offsetof_abi)); cbn [orb];
    [split; [reflexivity | split; reflexivity]|].
  destruct (to_size_t be_max <? abi_total_size (mk_cdata (chanv cd) copied));
    [split; [reflexivity | split; reflexivity]|].
  rewrite resume_fails_b. apply resume_failed_intro.
Qed.

Lemma bytes_ext_get_resume_failure be_max sc user size w :
  let '(ret, user', w') := snd_sof_bytes_ext_get P be_max sc user size w in
  resume_failed_outcome P w ret w' /\ user' = user.
Proof.
  destruct w as [cd u t]. unfold_handler. rewrite resume_fails_b.
  split; [apply resume_failed_intro | reflexivity].
Qed.

End ResumeFailure.

(** C8.  When [pm_runtime_get_sync] fails, every get and put handler returns
    that error unchanged, makes no call besides the resume attempt and the
    [pm_runtime_put_noidle] that drops its reference (so no IPC or mailbox
    traffic), and leaves the usage counter where it was.  The bytes handlers
    that validate before resuming return early, without any call at all,
    exactly when such a check fails: [snd_sof_bytes_get] and
    [snd_sof_bytes_put] on their size checks, [snd_sof_bytes_ext_put] on an
    unreadable envelope or blob ([-EFAULT]) and on a refused envelope or
    blob header ([-EINVAL]); a put that passes its checks reaches the
    resume and returns its error. *)
Theorem resume_failure_aborts {abi : sof_abi} (P : platform) :
  resume_result P < 0 ->
  (forall sm_max sc uc w,
     let '(ret, uc', w') := snd_sof_volume_get P sm_max sc uc w in
     resume_failed_outcome P w ret w' /\ uc' = uc)
  /\ (forall sm_max sc uc w,
        let '(ret, w') := snd_sof_volume_put P sm_max sc uc w in
        resume_failed_outcome P w ret w')
  /\ (forall sc uc w,
        let '(ret, uc', w') := snd_sof_switch_get P sc uc w in
        resume_failed_outcome P w ret w' /\ uc' = uc)
  /\ (forall sc uc w,
        let '(ret, w') := snd_sof_switch_put P sc uc w in
        resume_failed_outcome P w ret w')
  /\ (forall sc uc w,
        let '(ret, uc', w') := snd_sof_enum_get P sc uc w in
        resume_failed_outcome P w ret w' /\ uc' = uc)
  /\ (forall sc uc w,
        let '(ret, w') := snd_sof_enum_put P sc uc w in
        resume_failed_outcome P w ret w')
  /\ (forall be_max sc uc w,
        let '(ret, uc', w') := snd_sof_bytes_get P be_max sc uc w in
        (if sizeof_bytes_data <? to_size_t be_max
         then ret = - EINVAL /\ returned_early w w'
         else resume_failed_outcome P w ret w')
        /\ uc' = uc)
  /\ (forall be_max sc uc w,
        let '(ret, w') := snd_sof_bytes_put P be_max sc uc w in
        if (sizeof_bytes_data <? to_size_t be_max)
           || (to_size_t be_max <? abi_total_size (control_data w))
        then ret = - EINVAL /\ returned_early w w'
        else resume_failed_outcome P w ret w')
  /\ (forall be_max sc user size w,
        let header := take 8 user in
        let blob := take (Z.to_nat (load32 header 4)) (drop 8 user) in
        let cdata' :=
          mk_cdata (chanv (control_data w))
            (list_inserts 0 blob (data (control_data w))) in
        let '(ret, w') := snd_sof_bytes_ext_put P be_max sc user size w in
        if Z.of_nat (length user) <? sizeof_snd_ctl_tlv
        then ret = - EFAULT /\ returned_early w w'
        else if (to_u32 be_max <? load32 header 4)
                || negb (load32 header 0 =? to_u32 (cmd sc))
        then ret = - EINVAL /\ returned_early w w'
        else if Z.of_nat (length user) <? sizeof_snd_ctl_tlv + load32 header 4
        then ret = - EFAULT /\ returned_early w w'
        else if negb (load32 (data cdata') offsetof_magic =? SOF_ABI_MAGIC)
                || SOF_ABI_VERSION_INCOMPATIBLE SOF_ABI_VERSION
                     (load32 (data cdata') offsetof_abi)
                || (to_size_t be_max <? abi_total_size cdata')
        then ret = - EINVAL /\ returned_early w w'
        else resume_failed_outcome P w ret w')
  /\ (forall be_max sc user size w,
        let '(ret, user', w') := snd_sof_bytes_ext_get P be_max sc user size w in
        resume_failed_outcome P w ret w' /\ user' = user).
Proof.
  intros Hfail.
  split; [intros; apply volume_get_resume_failure; assumption|].
  split; [intros; apply volume_put_resume_failure; assumption|].
  split; [intros; apply switch_get_resume_failure; assumption|].
  split; [intros; apply switch_put_resume_failure; assumption|].
  split; [intros; apply enum_get_resume_failure; assumption|].
  split; [intros; apply enum_put_resume_failure; assumption|].
  split; [intros; apply bytes_get_resume_failure; assumption|].
  split; [intros; apply bytes_put_resume_failure; assumption|].
  split; [intros; apply bytes_ext_put_resume_failure; assumption|].
  intros; apply bytes_ext_get_resume_failure; assumption.
Qed.

Lemma resume_failure_aborts_witness :
  (let '(ret, w') :=
     snd_sof_volume_put suspended_platform 4 example_control [3; 3]
       example_dev in
   resume_failed_outcome suspended_platform example_dev ret w')
  /\ (let '(ret, w') :=
        snd_sof_bytes_ext_put (abi := spec_abi) suspended_platform 64
          example_control
          (tlv_buffer 9
             (spec_blob 0x00464F53 0x03001000 2 [Byte.xaa; Byte.xbb]))
          22 bytes_dev in
      resume_failed_outcome suspended_platform bytes_dev ret w').
Proof.
  pose proof (resume_failure_aborts (abi := spec_abi) suspended_platform
                ltac:(simpl; lia))
    as (_ & Hvolume_put & _ & _ & _ & _ & _ & _ & Hext_put & _).
  split.
  - apply (Hvolume_put 4 example_control [3; 3] example_dev).
  - apply (Hext_put 64 example_control
             (tlv_buffer 9
                (spec_blob 0x00464F53 0x03001000 2 [Byte.xaa; Byte.xbb]))
             22 bytes_dev).
Defined.

Lemma comp_data_calls_app (t1 t2 : list kevent) :
  comp_data_calls (t1 ++ t2) = comp_data_calls t1 ++ comp_data_calls t2.
Proof.
  induction t1 as [|e t1 IH]; [reflexivity|].
  destruct e; cbn [comp_data_calls app]; rewrite IH; reflexivity.
Qed.

Lemma comp_data_calls_siggen (P : platform) (new_state : Z) :
  comp_data_calls (siggen_pipeline_log P new_state) = [].
Proof.
  unfold siggen_pipeline_log.
  destruct (new_state =? 0); [reflexivity|].
  destruct (tx_message_result P SOF_IPC_STREAM_PCM_PARAMS <? 0); reflexivity.
Qed.

Section SwitchArm.

Variable P : platform.

(** What one arm of the [switch] does to the device state: the loop result
    is stored; when [changed] is set the DSP is notified once with the stored
    array, and a signal generator is triggered after that. *)
Lemma switch_put_arm_run widget sc uc cd u t :
  let st := switch_loop_run uc (switch_source widget) (num_channels sc) (chanv cd) in
  let cd1 := mk_cdata (loop_chanv st) (data cd) in
  switch_put_arm P widget sc uc (mk_dev cd u t)
  = if changed st =? 0 then (tt, mk_dev cd1 u t)
    else
      (tt, mk_dev (comp_data_reply P true cd1) u
             (t ++ ipc_comp_data SOF_IPC_COMP_SET_VALUE
                     SOF_CTRL_TYPE_VALUE_CHAN_GET SOF_CTRL_CMD_SWITCH true cd1
                   :: match widget with
                      | Some snd_soc_dapm_siggen =>
                          siggen_pipeline_log P (new_state st)
                      | _ => []
                      end)).
Proof.
  intros st cd1. subst st cd1.
  destruct widget as [[| |id]|]; cbn [switch_source];
    cbv [switch_put_arm switch_put_notify siggen_pipeline_trigger
         siggen_pipeline_log siggen_pcm_params siggen_trigger
         set_vfe_active_status sof_ipc_tx_message
         snd_sof_ipc_set_get_comp_data
         mbind mret K_bind K_ret log get_cdata set_cdata add_usage
         trace control_data usage_count];
    repeat match goal with
      | |- context [if ?b then _ else _] => destruct b
      end;
    rewrite <- ?app_assoc; reflexivity.
Qed.

End SwitchArm.

Section IpcFailure.

Variable P : platform.
Hypothesis resume_ok : 0 <= resume_result P.

Lemma resume_ok_b : (resume_result P <? 0) = false.
Proof. apply Z.ltb_ge. exact resume_ok. Qed.

Lemma switch_put_returns_0 sc uc w : fst (snd_sof_switch_put P sc uc w) = 0.
Proof.
  destruct w as [cd u t]. unfold_handler. rewrite resume_ok_b.
  rewrite switch_put_arm_run.
  destruct (changed _ =? 0); reflexivity.
Qed.

(** The six value handlers never look at what
    [snd_sof_ipc_set_get_comp_data] returns. *)
Lemma value_handlers_return_0 sm_max sc uc w :
  (let '(ret, _, w') := snd_sof_volume_get P sm_max sc uc w in
   ret = 0
   /\ comp_data_calls (trace w')
      = comp_data_calls (trace w)
        ++ [(SOF_IPC_COMP_GET_VALUE, false, control_data w)])
  /\ (let '(ret, w') := snd_sof_volume_put P sm_max sc uc w in
      ret = 0
      /\ length (comp_data_calls (trace w'))
         = S (length (comp_data_calls (trace w))))
  /\ (let '(ret, _, w') := snd_sof_switch_get P sc uc w in
      ret = 0
      /\ comp_data_calls (trace w')
         = comp_data_calls (trace w)
           ++ [(SOF_IPC_COMP_GET_VALUE, false, control_data w)])
  /\ fst (snd_sof_switch_put P sc uc w) = 0
  /\ (let '(ret, _, w') := snd_sof_enum_get P sc uc w in
      ret = 0
      /\ comp_data_calls (trace w')
         = comp_data_calls (trace w)
           ++ [(SOF_IPC_COMP_GET_VALUE, false, control_data w)])
  /\ (let '(ret, w') := snd_sof_enum_put P sc uc w in
      ret = 0
      /\ length (comp_data_calls (trace w'))
         = S (length (comp_data_calls (trace w)))).
Proof.
  pose proof (switch_put_returns_0 sc uc w) as Hswitch.
  destruct w as [cd u t].
  repeat apply conj; try exact Hswitch; unfold_handler; rewrite resume_ok_b;
    (split; [reflexivity|]);
    rewrite ?comp_data_calls_app, ?length_app; cbn [comp_data_calls length];
    rewrite ?app_nil_r; try reflexivity; try lia.
Qed.

End IpcFailure.

(** The bytes put handlers and [snd_sof_bytes_get] return the resume result
    or a validation error, never what the exchange returned ... *)
Lemma bytes_handlers_ignore_ipc_result {abi : sof_abi} (P : platform)
    (be_max : Z) (sc : snd_sof_control) (uc user : list byte) (size : Z)
    (w : sof_dev) :
  (let '(ret, _, _) := snd_sof_bytes_get P be_max sc uc w in
   ret = resume_result P \/ ret = - EINVAL)
  /\ (let '(ret, _) := snd_sof_bytes_put P be_max sc uc w in
      ret = resume_result P \/ ret = - EINVAL)
  /\ (let '(ret, _) := snd_sof_bytes_ext_put P be_max sc user size w in
      ret = resume_result P \/ ret = - EINVAL \/ ret = - EFAULT).
Proof.
  destruct w as [cd u t].
  repeat apply conj; unfold_handler; cbv [copy_from_user];
    repeat match goal with
      | |- context [if ?b then _ else _] => destruct b
      end;
    auto.
Qed.

(** ... while [snd_sof_bytes_ext_get] keeps it in [ret] and returns it. *)
Lemma bytes_ext_get_returns_ipc_result :
  fst (fst (snd_sof_bytes_ext_get (abi := spec_abi) ipc_failing_platform 64
              example_control (replicate 80 Byte.xff) 80 bytes_dev))
  = comp_data_result ipc_failing_platform.
Proof. vm_compute. reflexivity. Qed.

(** C2 (the code departs from the claim).  When the resume succeeds, the
    volume, switch and enum handlers return 0 whatever
    [snd_sof_ipc_set_get_comp_data] returns: a failed exchange is reported
    as success. *)
Theorem ipc_failure_reported_as_success (P : platform) :
  0 <= resume_result P ->
  comp_data_result P < 0 ->
  forall sm_max sc uc w,
    (let '(ret, _, w') := snd_sof_volume_get P sm_max sc uc w in
     ret = 0
     /\ comp_data_calls (trace w')
        = comp_data_calls (trace w)
          ++ [(SOF_IPC_COMP_GET_VALUE, false, control_data w)])
    /\ (let '(ret, w') := snd_sof_volume_put P sm_max sc uc w in
        ret = 0
        /\ length (comp_data_calls (trace w'))
           = S (length (comp_data_calls (trace w))))
    /\ (let '(ret, _, w') := snd_sof_switch_get P sc uc w in
        ret = 0
        /\ comp_data_calls (trace w')
           = comp_data_calls (trace w)
             ++ [(SOF_IPC_COMP_GET_VALUE, false, control_data w)])
    /\ fst (snd_sof_switch_put P sc uc w) = 0
    /\ (let '(ret, _, w') := snd_sof_enum_get P sc uc w in
        ret = 0
        /\ comp_data_calls (trace w')
           = comp_data_calls (trace w)
             ++ [(SOF_IPC_COMP_GET_VALUE, false, control_data w)])
    /\ (let '(ret, w') := snd_sof_enum_put P sc uc w in
        ret = 0
        /\ length (comp_data_calls (trace w'))
           = S (length (comp_data_calls (trace w)))).
Proof.
  intros Hresume _ sm_max sc uc w.
  apply value_handlers_return_0. exact Hresume.
Qed.

Lemma ipc_failure_reported_as_success_witness :
  let '(ret, _, w') :=
    snd_sof_volume_get ipc_failing_platform 4 example_control [0; 0]
      example_dev in
  ret = 0
  /\ comp_data_calls (trace w')
     = comp_data_calls (trace example_dev)
       ++ [(SOF_IPC_COMP_GET_VALUE, false, control_data example_dev)].
Proof.
  apply (proj1 (ipc_failure_reported_as_success ipc_failing_platform
                  ltac:(simpl; lia) ltac:(simpl; lia)
                  4 example_control [0; 0] example_dev)).
Defined.

(** ** Channel loops *)

Lemma to_int_to_u32 z : to_int (to_u32 z) = to_int z.
Proof.
  unfold to_int, to_u32.
  rewrite Zplus_mod_idemp_l. reflexivity.
Qed.

Lemma to_int_idem z : to_int (to_int z) = to_int z.
Proof. apply to_int_small, to_int_range. Qed.

Section ChannelLoops.

Variable uc : list Z.
Variable cv : list sof_ipc_ctrl_value_chan.

(** Overwriting the entries [0 .. n-1] one by one. *)
Lemma overwrite_prefix (f : nat -> sof_ipc_ctrl_value_chan) (n : nat) :
  (n <= length cv)%nat ->
  foldl (fun cv i => <[i := f i]> cv) cv (seq 0 n)
  = (f <$> seq 0 n) ++ drop n cv.
Proof.
  induction n as [|n IH]; intros Hn; [reflexivity|].
  rewrite seq_S, foldl_snoc, fmap_app, IH by lia. cbn [Nat.add fmap list_fmap].
  destruct (lookup_lt_is_Some_2 cv n ltac:(lia)) as [x Hx].
  rewrite (drop_S _ _ _ Hx).
  rewrite insert_app_r_alt by (rewrite length_fmap, length_seq; lia).
  rewrite length_fmap, length_seq, Nat.sub_diag. cbn [insert list_insert].
  rewrite <- app_assoc. reflexivity.
Qed.

Lemma update_channels_full (encode : Z -> Z) (channels : Z) :
  length cv = Z.to_nat channels ->
  update_channels encode channels uc cv
  = new_channel_vector encode (fun i => i) channels uc.
Proof.
  intros Hlen. unfold update_channels, new_channel_vector, channel_range.
  rewrite (overwrite_prefix
             (fun i => mk_chan (Z.of_nat i) (encode (ucontrol_value uc i))))
    by lia.
  rewrite <- Hlen, drop_all, app_nil_r. reflexivity.
Qed.


(** The array a switch loop leaves behind does not depend on the comparisons. *)
Lemma switch_loop_chanv (src : nat -> nat) (l : list nat) :
  forall st : switch_loop,
    loop_chanv (foldl (switch_step uc src) st l)
    = foldl (fun cv i =>
               <[i := mk_chan (Z.of_nat i)
                        (to_u32 (to_int (ucontrol_value uc (src i))))]> cv)
        (loop_chanv st) l.
Proof.
  induction l as [|i l IH]; intros st; [reflexivity|].
  cbn [foldl]. rewrite IH. reflexivity.
Qed.

Lemma chanv_value_overwritten (f : nat -> sof_ipc_ctrl_value_chan) (n i : nat) :
  (n <= length cv)%nat ->
  chanv_value ((f <$> seq 0 n) ++ drop n cv) i
  = if decide (i < n)%nat then value (f i) else chanv_value cv i.
Proof.
  intros Hn. unfold chanv_value.
  destruct (decide (i < n)%nat) as [Hi|Hi].
  - rewrite lookup_app_l by (rewrite length_fmap, length_seq; lia).
    rewrite list_lookup_fmap, lookup_seq_lt by lia. reflexivity.
  - rewrite lookup_app_r by (rewrite length_fmap, length_seq; lia).
    rewrite length_fmap, length_seq, lookup_drop.
    replace (n + (i - n))%nat with i by lia. reflexivity.
Qed.

(** PGA loop: channel [i] is compared with the cached channel [i]. *)
Lemma switch_loop_pga (n : nat) :
  (n <= length cv)%nat ->
  let st := foldl (switch_step uc (fun i => i)) (mk_switch_loop 0 0 cv) (seq 0 n) in
  (changed st = 0 \/ changed st = 1)
  /\ (changed st = 0 <->
      forall i : nat, (i < n)%nat ->
        to_int (ucontrol_value uc i) = to_int (chanv_value cv i)).
Proof.
  induction n as [|n IH]; intros Hn st; subst st.
  - cbn. split; [left; reflexivity|]. split; [intros _ i Hi; lia | reflexivity].
  - rewrite seq_S, foldl_snoc. cbn [Nat.add].
    destruct (IH ltac:(lia)) as [Hbit Hiff].
    set (st := foldl (switch_step uc (fun i => i)) (mk_switch_loop 0 0 cv) (seq 0 n)) in *.
    assert (Hold : chanv_value (loop_chanv st) n = chanv_value cv n).
    { subst st. rewrite switch_loop_chanv. cbn [loop_chanv].
      rewrite (overwrite_prefix
        (fun i => mk_chan (Z.of_nat i) (to_u32 (to_int (ucontrol_value uc i)))))
        by lia.
      rewrite chanv_value_overwritten by lia.
      destruct (decide (n < n)%nat); [lia | reflexivity]. }
    unfold switch_step. cbn [changed]. rewrite Hold.
    destruct (Z.eqb_spec (to_int (ucontrol_value uc n)) (to_int (chanv_value cv n)))
      as [Heq|Hne].
    + split; [exact Hbit|]. rewrite Hiff. split.
      * intros Hall i Hi. destruct (decide (i = n)) as [->|]; [exact Heq|].
        apply Hall. lia.
      * intros Hall i Hi. apply Hall. lia.
    + split; [right; reflexivity|]. split; [lia|].
      intros Hall. exfalso. apply Hne. apply Hall. lia.
Qed.

(** Every other widget: each iteration compares new value 0 with the cached
    channel 0, which the first iteration has already overwritten. *)
Lemma switch_loop_first_channel (n : nat) :
  (n <= length cv)%nat ->
  let st := foldl (switch_step uc (fun _ => 0%nat)) (mk_switch_loop 0 0 cv) (seq 0 n) in
  (changed st = 0 \/ changed st = 1)
  /\ (changed st = 0 <->
      ((0 < n)%nat ->
       to_int (ucontrol_value uc 0) = to_int (chanv_value cv 0))).
Proof.
  induction n as [|n IH]; intros Hn st; subst st.
  - cbn. split; [left; reflexivity|]. split; [intros _ Hi; lia | reflexivity].
  - rewrite seq_S, foldl_snoc. cbn [Nat.add].
    destruct (IH ltac:(lia)) as [Hbit Hiff].
    set (st := foldl (switch_step uc (fun _ => 0%nat)) (mk_switch_loop 0 0 cv) (seq 0 n)) in *.
    assert (Hold : to_int (chanv_value (loop_chanv st) 0)
                   = if decide (0 < n)%nat
                     then to_int (ucontrol_value uc 0)
                     else to_int (chanv_value cv 0)).
    { subst st. rewrite switch_loop_chanv. cbn [loop_chanv].
      rewrite (overwrite_prefix
        (fun i => mk_chan (Z.of_nat i) (to_u32 (to_int (ucontrol_value uc 0)))))
        by lia.
      rewrite chanv_value_overwritten by lia.
      destruct (decide (0 < n)%nat); [|reflexivity].
      cbn [value]. rewrite to_int_to_u32, to_int_idem. reflexivity. }
    unfold switch_step. cbn [changed]. rewrite Hold.
    destruct (decide (0 < n)%nat) as [Hpos|Hzero].
    + rewrite Z.eqb_refl. split; [exact Hbit|]. rewrite Hiff.
      split; intros H _; apply H; lia.
    + assert (n = 0%nat) as -> by lia.
      destruct (Z.eqb_spec (to_int (ucontrol_value uc 0)) (to_int (chanv_value cv 0)))
        as [Heq|Hne].
      * split; [exact Hbit|]. rewrite Hiff.
        split; intros H Hlt; [exact Heq | lia].
      * split; [right; reflexivity|]. split; [lia|].
        intros Hall. exfalso. apply Hne. apply Hall. lia.
Qed.

End ChannelLoops.

(** The switch loop of either kind, on an array of [channels] entries. *)
Lemma switch_loop_run_spec (widget : option snd_soc_dapm_type) (channels : Z)
    (uc : list Z) (cv : list sof_ipc_ctrl_value_chan) :
  length cv = Z.to_nat channels ->
  let src := switch_source widget in
  let st := switch_loop_run uc src channels cv in
  loop_chanv st
  = new_channel_vector (fun v => to_u32 (to_int v)) src channels uc
  /\ (same_as_cached src channels uc cv -> (changed st =? 0) = true)
  /\ (differs_from_cached src channels uc cv -> (changed st =? 0) = false).
Proof.
  intros Hlen src st. subst st.
  unfold switch_loop_run, new_channel_vector, channel_range.
  split.
  - rewrite switch_loop_chanv. cbn [loop_chanv].
    rewrite (overwrite_prefix cv
      (fun i => mk_chan (Z.of_nat i) (to_u32 (to_int (ucontrol_value uc (src i))))))
      by lia.
    rewrite <- Hlen, drop_all, app_nil_r. reflexivity.
  - assert (Hinv :
      let st := foldl (switch_step uc src) (mk_switch_loop 0 0 cv)
                  (seq 0 (Z.to_nat channels)) in
      (changed st = 0 \/ changed st = 1)
      /\ (changed st = 0 <-> same_as_cached src channels uc cv)).
    { subst src. unfold same_as_cached.
      destruct widget as [[| |id]|]; cbn [switch_source];
        first [ apply switch_loop_pga; lia
              | destruct (switch_loop_first_channel uc cv (Z.to_nat channels)
                            ltac:(lia)) as [Hbit Hiff];
                split; [exact Hbit|]; rewrite Hiff; split;
                [ intros H i Hi; apply H; lia
                | intros H Hpos; apply (H 0%nat Hpos) ] ]. }
    destruct Hinv as [Hbit Hiff]. split.
    + intros Hsame. apply Z.eqb_eq, Hiff, Hsame.
    + intros (i & Hi & Hne). apply Z.eqb_neq. intros Hzero.
      apply Hne. apply Hiff; assumption.
Qed.

(** ** Put handlers and the messages they send *)

Section PutTransactions.

Variable P : platform.
Hypothesis resume_ok : 0 <= resume_result P.

Variable sc : snd_sof_control.
Variable uc : list Z.
Variable w : sof_dev.
Hypothesis chanv_allocated :
  length (chanv (control_data w)) = Z.to_nat (num_channels sc).


Lemma switch_put_calls :
  let src := switch_source (get_widget_type (widget_list P) sc) in
  (same_as_cached src (num_channels sc) uc (chanv (control_data w)) ->
   comp_data_calls (trace (snd (snd_sof_switch_put P sc uc w)))
   = comp_data_calls (trace w))
  /\ (differs_from_cached src (num_channels sc) uc (chanv (control_data w)) ->
      comp_data_calls (trace (snd (snd_sof_switch_put P sc uc w)))
      = comp_data_calls (trace w)
        ++ [set_message sc uc w (fun v => to_u32 (to_int v)) src]).
Proof.
  intros src. unfold set_message. destruct w as [cd u t].
  cbn [control_data trace] in *.
  destruct (switch_loop_run_spec (get_widget_type (widget_list P) sc)
              (num_channels sc) uc (chanv cd) chanv_allocated)
    as (Hvec & Hsame & Hdiff).
  fold src in Hvec, Hsame, Hdiff.
  assert (Hrun : snd_sof_switch_put P sc uc (mk_dev cd u t)
                 = let (_, w1) :=
                     switch_put_arm P (get_widget_type (widget_list P) sc) sc uc
                       (mk_dev cd (u + 1) (t ++ [pm_get_sync])) in
                   (0, mk_dev (control_data w1) (usage_count w1 + -1)
                         ((trace w1 ++ [pm_mark_last_busy])
                          ++ [pm_put_autosuspend]))).
  { unfold_handler. rewrite (resume_ok_b P resume_ok).
    destruct (switch_put_arm _ _ _ _ _) as [[] [cd1 u1 t1]]. reflexivity. }
  rewrite Hrun, switch_put_arm_run. fold src. rewrite Hvec.
  split.
  - intros H. rewrite (Hsame H). cbn [snd trace control_data usage_count].
    rewrite !comp_data_calls_app. cbn [comp_data_calls].
    rewrite !app_nil_r. reflexivity.
  - intros H. rewrite (Hdiff H). cbn [snd trace control_data usage_count].
    rewrite !comp_data_calls_app. cbn [comp_data_calls].
    replace (comp_data_calls
               match get_widget_type (widget_list P) sc with
               | Some snd_soc_dapm_siggen =>
                   siggen_pipeline_log P
                     (new_state (switch_loop_run uc src (num_channels sc) (chanv cd)))
               | _ => []
               end) with (@nil (sof_ipc_cmd * bool * sof_ipc_ctrl_data)).
    + rewrite !app_nil_r. reflexivity.
    + destruct (get_widget_type (widget_list P) sc) as [[| |id]|];
        rewrite ?comp_data_calls_siggen; reflexivity.
Qed.

Lemma volume_put_calls sm_max :
  comp_data_calls (trace (snd (snd_sof_volume_put P sm_max sc uc w)))
  = comp_data_calls (trace w)
    ++ [set_message sc uc w
          (fun v => mixer_to_ipc (to_u32 v) (volume_table sc)
                      (to_int (sm_max + 1)))
          (fun i => i)].
Proof.
  unfold set_message. destruct w as [cd u t].
  cbn [control_data trace] in *.
  unfold_handler. rewrite (resume_ok_b P resume_ok).
  cbn [snd trace chanv data]. rewrite update_channels_full by assumption.
  rewrite !comp_data_calls_app. cbn [comp_data_calls].
  rewrite !app_nil_r. reflexivity.
Qed.

Lemma enum_put_calls :
  comp_data_calls (trace (snd (snd_sof_enum_put P sc uc w)))
  = comp_data_calls (trace w) ++ [set_message sc uc w to_u32 (fun i => i)].
Proof.
  unfold set_message. destruct w as [cd u t].
  cbn [control_data trace] in *.
  unfold_handler. rewrite (resume_ok_b P resume_ok).
  cbn [snd trace chanv data]. rewrite update_channels_full by assumption.
  rewrite !comp_data_calls_app. cbn [comp_data_calls].
  rewrite !app_nil_r. reflexivity.
Qed.

End PutTransactions.

(** C1 (as the code has it).  With the channel array allocated for the
    control's channels and the device resumed: [snd_sof_switch_put] sends no
    set message when every compared channel equals the cached one, and
    exactly one set message carrying the whole new array when some compared
    channel differs; a PGA compares channel by channel, every other widget
    compares channel 0 only.  [snd_sof_volume_put] and [snd_sof_enum_put]
    always send exactly one set message carrying the whole new array. *)
Theorem put_value_transactions (P : platform) (sm_max : Z)
    (sc : snd_sof_control) (uc : list Z) (w : sof_dev) :
  0 <= resume_result P ->
  length (chanv (control_data w)) = Z.to_nat (num_channels sc) ->
  let src := switch_source (get_widget_type (widget_list P) sc) in
  let cached := chanv (control_data w) in
  (same_as_cached src (num_channels sc) uc cached ->
   comp_data_calls (trace (snd (snd_sof_switch_put P sc uc w)))
   = comp_data_calls (trace w))
  /\ (differs_from_cached src (num_channels sc) uc cached ->
      comp_data_calls (trace (snd (snd_sof_switch_put P sc uc w)))
      = comp_data_calls (trace w)
        ++ [set_message sc uc w (fun v => to_u32 (to_int v)) src])
  /\ comp_data_calls (trace (snd (snd_sof_volume_put P sm_max sc uc w)))
     = comp_data_calls (trace w)
       ++ [set_message sc uc w
             (fun v => mixer_to_ipc (to_u32 v) (volume_table sc)
                         (to_int (sm_max + 1)))
             (fun i => i)]
  /\ comp_data_calls (trace (snd (snd_sof_enum_put P sc uc w)))
     = comp_data_calls (trace w) ++ [set_message sc uc w to_u32 (fun i => i)].
Proof.
  intros Hresume Hlen src cached.
  destruct (switch_put_calls P Hresume sc uc w Hlen) as [Hsame Hdiff].
  split; [exact Hsame|]. split; [exact Hdiff|]. split.
  - apply volume_put_calls; assumption.
  - apply enum_put_calls; assumption.
Qed.

Lemma put_value_transactions_witness :
  comp_data_calls
    (trace (snd (snd_sof_switch_put pga_platform example_control [1; 2]
                   example_dev)))
  = comp_data_calls (trace example_dev).
Proof.
  refine (proj1 (put_value_transactions pga_platform 4 example_control [1; 2]
                   example_dev _ _) _).
  - simpl. lia.
  - reflexivity.
  - intros i Hi. destruct i as [|[|i]]; [reflexivity | reflexivity |].
    simpl in Hi. lia.
Defined.

(** C1 as stated fails: [snd_sof_enum_put] and [snd_sof_volume_put] send
    their set message although every new value equals the cached one, and
    [snd_sof_switch_put] on a control without a PGA sends nothing although
    channel 1 differs. *)
Lemma put_value_unchanged_still_sent :
  same_as_cached (fun i => i) 2 [1; 2] (chanv (control_data example_dev))
  /\ length (comp_data_calls
               (trace (snd (snd_sof_enum_put quiet_platform example_control
                              [1; 2] example_dev)))) = 1%nat
  /\ chanv (control_data (snd (snd_sof_volume_put quiet_platform 4
                                example_control [1; 2] volume_dev)))
     = chanv (control_data volume_dev)
  /\ length (comp_data_calls
               (trace (snd (snd_sof_volume_put quiet_platform 4
                              example_control [1; 2] volume_dev)))) = 1%nat
  /\ differs_from_cached (fun i => i) 2 [1; 3] (chanv (control_data example_dev))
  /\ comp_data_calls
       (trace (snd (snd_sof_switch_put quiet_platform example_control [1; 3]
                      example_dev))) = [].
Proof.
  split.
  { intros i Hi. destruct i as [|[|i]]; [reflexivity | reflexivity |].
    simpl in Hi. lia. }
  split; [reflexivity|]. split; [reflexivity|]. split; [reflexivity|].
  split; [|reflexivity].
  exists 1%nat. split; [simpl; lia|]. vm_compute. discriminate.
Qed.

(** ** Extended bytes put *)

Section ExtPutValidation.

Context {abi : sof_abi}.
Variable P : platform.
Variable be_max : Z.
Variable sc : snd_sof_control.
Variable user : list byte.
Variable size : Z.
Variable w : sof_dev.

Hypothesis header_mapped : sizeof_snd_ctl_tlv <= Z.of_nat (length user).

(** The envelope checks come first and leave everything as it was. *)
Lemma bytes_ext_put_envelope :
  let header := take 8 user in
  to_u32 be_max < load32 header 4 \/ load32 header 0 <> to_u32 (cmd sc) ->
  snd_sof_bytes_ext_put P be_max sc user size w = (- EINVAL, w).
Proof.
  intros header Hbad. subst header. unfold sizeof_snd_ctl_tlv in *.
  destruct w as [cd u t]. unfold_handler. unfold sizeof_snd_ctl_tlv.
  rewrite copy_from_user_ok by lia.
  change (Z.to_nat 8) with 8%nat. change (Z.to_nat 0) with 0%nat.
  rewrite drop_0. cbn [Z.eqb negb].
  destruct (Z.ltb_spec (to_u32 be_max) (load32 (take 8 user) 4)) as [Hlen|Hlen];
    [reflexivity|].
  destruct (Z.eqb_spec (load32 (take 8 user) 0) (to_u32 (cmd sc))) as [Hid|Hid];
    [|reflexivity].
  destruct Hbad; [lia | contradiction].
Qed.

(** Once the envelope is accepted the blob is copied into [cdata->data];
    the checks of its header run on the copy and reject it without any call
    to the device. *)
Lemma bytes_ext_put_blob_header :
  let header := take 8 user in
  let blob := take (Z.to_nat (load32 header 4)) (drop 8 user) in
  let cdata' :=
    mk_cdata (chanv (control_data w))
      (list_inserts 0 blob (data (control_data w))) in
  load32 header 4 <= to_u32 be_max ->
  load32 header 0 = to_u32 (cmd sc) ->
  sizeof_snd_ctl_tlv + load32 header 4 <= Z.of_nat (length user) ->
  load32 (data cdata') offsetof_magic <> SOF_ABI_MAGIC
  \/ SOF_ABI_VERSION_INCOMPATIBLE SOF_ABI_VERSION
       (load32 (data cdata') offsetof_abi) = true
  \/ to_size_t be_max < abi_total_size cdata' ->
  snd_sof_bytes_ext_put P be_max sc user size w
  = (- EINVAL, mk_dev cdata' (usage_count w) (trace w)).
Proof.
  intros header blob cdata' Hlen Hid Hmapped Hbad.
  subst cdata' blob header. unfold sizeof_snd_ctl_tlv in *.
  destruct w as [cd u t]. unfold_handler. unfold sizeof_snd_ctl_tlv.
  rewrite copy_from_user_ok by lia.
  change (Z.to_nat 8) with 8%nat. change (Z.to_nat 0) with 0%nat.
  rewrite drop_0. cbn [Z.eqb negb].
  destruct (Z.ltb_spec (to_u32 be_max) (load32 (take 8 user) 4)); [lia|].
  rewrite Hid, Z.eqb_refl. cbn [negb].
  pose proof (load32_range (take 8 user) 4) as Hrange.
  rewrite copy_from_user_ok by lia.
  change (Z.to_nat 8) with 8%nat. cbn [Z.eqb negb].
  cbn [control_data usage_count trace chanv data] in *.
  set (copied := list_inserts 0 _ (data cd)) in *.
  destruct (Z.eqb_spec (load32 copied offsetof_magic) SOF_ABI_MAGIC)
    as [Hmagic|Hmagic]; cbn [negb]; [|reflexivity].
  destruct (SOF_ABI_VERSION_INCOMPATIBLE SOF_ABI_VERSION
              (load32 copied offsetof_abi)) eqn:Habi; [reflexivity|].
  destruct (Z.ltb_spec (to_size_t be_max)
              (abi_total_size (mk_cdata (chanv cd) copied))) as [Hsz|Hsz];
    [reflexivity|].
  destruct Hbad as [Hbad|[Hbad|Hbad]]; [contradiction | discriminate | lia].
Qed.

End ExtPutValidation.

(** C3 (as the code has it).  For an extended bytes put whose envelope
    header can be read: a declared length over the maximum or an envelope id
    that is not the control's returns [-EINVAL] with the device state, the
    cached buffer included, exactly as before; once the envelope is accepted
    the blob is copied into the cached buffer, and a wrong magic, an
    incompatible ABI version or a declared size that with the header exceeds
    the maximum returns [-EINVAL] without any call to the device or to
    runtime PM, the cached buffer holding the caller's bytes. *)
Theorem bytes_ext_put_validation {abi : sof_abi} (P : platform) (be_max : Z)
    (sc : snd_sof_control) (user : list byte) (size : Z) (w : sof_dev) :
  sizeof_snd_ctl_tlv <= Z.of_nat (length user) ->
  let header := take 8 user in
  let blob := take (Z.to_nat (load32 header 4)) (drop 8 user) in
  let cdata' :=
    mk_cdata (chanv (control_data w))
      (list_inserts 0 blob (data (control_data w))) in
  (to_u32 be_max < load32 header 4 \/ load32 header 0 <> to_u32 (cmd sc) ->
   snd_sof_bytes_ext_put P be_max sc user size w = (- EINVAL, w))
  /\ (load32 header 4 <= to_u32 be_max ->
      load32 header 0 = to_u32 (cmd sc) ->
      sizeof_snd_ctl_tlv + load32 header 4 <= Z.of_nat (length user) ->
      load32 (data cdata') offsetof_magic <> SOF_ABI_MAGIC
      \/ SOF_ABI_VERSION_INCOMPATIBLE SOF_ABI_VERSION
           (load32 (data cdata') offsetof_abi) = true
      \/ to_size_t be_max < abi_total_size cdata' ->
      snd_sof_bytes_ext_put P be_max sc user size w
      = (- EINVAL, mk_dev cdata' (usage_count w) (trace w))).
Proof.
  intros Hmapped header blob cdata'. split.
  - apply bytes_ext_put_envelope; assumption.
  - apply bytes_ext_put_blob_header; assumption.
Qed.

Lemma bytes_ext_put_validation_witness :
  snd_sof_bytes_ext_put (abi := spec_abi) quiet_platform 64 example_control
    (tlv_buffer 5 (spec_blob 0x00464F53 0x03001000 2 [Byte.xaa; Byte.xbb]))
    22 bytes_dev
  = (- EINVAL, bytes_dev).
Proof.
  refine (proj1 (bytes_ext_put_validation (abi := spec_abi) quiet_platform 64
                   example_control
                   (tlv_buffer 5
                      (spec_blob 0x00464F53 0x03001000 2 [Byte.xaa; Byte.xbb]))
                   22 bytes_dev _) _).
  - vm_compute. discriminate.
  - right. vm_compute. discriminate.
Defined.

(** C3 as stated fails: a blob with a wrong magic is rejected only after it
    has been copied over the cached buffer. *)
Lemma bytes_ext_put_bad_magic_mutates_cache :
  let '(ret, w') :=
    snd_sof_bytes_ext_put (abi := spec_abi) quiet_platform 64 example_control
      bad_magic_user 22 bytes_dev in
  ret = - EINVAL
  /\ trace w' = []
  /\ data (control_data w') <> data (control_data bytes_dev).
Proof.
  vm_compute. split; [reflexivity|]. split; [reflexivity|].
  intros H. discriminate H.
Qed.

(** ** Bytes get *)

Lemma abi_total_size_exact {abi : sof_abi} (cdata : sof_ipc_ctrl_data) :
  0 <= sizeof_sof_abi_hdr < 2 ^ 32 ->
  abi_total_size cdata = declared_size cdata + sizeof_sof_abi_hdr.
Proof.
  intros Hhdr. unfold abi_total_size, declared_size.
  pose proof (load32_range (data cdata) offsetof_size).
  apply to_size_t_small. lia.
Qed.

Section BytesGetSizeCheck.

Context {abi : sof_abi}.
Variable P : platform.
Variable be_max : Z.
Variable sc : snd_sof_control.
Variable w : sof_dev.

Hypothesis resume_ok : 0 <= resume_result P.
Hypothesis header_size : 0 <= sizeof_sof_abi_hdr < 2 ^ 32.

(** [snd_sof_bytes_get] compares in [size_t] and rejects every oversize
    blob without touching the caller's buffer. *)
Lemma bytes_get_rejects_oversize (uc : list byte) :
  0 <= be_max <= sizeof_bytes_data ->
  be_max < declared_size (replied P w) + sizeof_sof_abi_hdr ->
  let '(ret, uc', w') := snd_sof_bytes_get P be_max sc uc w in
  ret = - EINVAL /\ uc' = uc.
Proof.
  unfold sizeof_bytes_data. intros Hmax Hover.
  destruct w as [cd u t]. unfold_handler. unfold sizeof_bytes_data.
  rewrite (to_size_t_small be_max) by lia.
  destruct (Z.ltb_spec 512 be_max); [lia|].
  rewrite (resume_ok_b P resume_ok).
  change (comp_data_reply P false cd) with (replied P (mk_dev cd u t)).
  rewrite abi_total_size_exact by assumption.
  destruct (Z.ltb_spec be_max
              (declared_size (replied P (mk_dev cd u t)) + sizeof_sof_abi_hdr));
    [|lia].
  split; reflexivity.
Qed.

(** [snd_sof_bytes_ext_get] does the same as long as the sum fits its
    [int data_size]. *)
Lemma bytes_ext_get_rejects_oversize (user : list byte) (size : Z) :
  let cdata :=
    comp_data_reply P false
      (mk_cdata (chanv (control_data w))
         (store32 (store32 (data (control_data w)) offsetof_magic SOF_ABI_MAGIC)
            offsetof_abi SOF_ABI_VERSION)) in
  declared_size cdata + sizeof_sof_abi_hdr <= INT_MAX ->
  be_max < declared_size cdata + sizeof_sof_abi_hdr ->
  let '(ret, user', w') := snd_sof_bytes_ext_get P be_max sc user size w in
  ret = - EINVAL /\ user' = user.
Proof.
  intros cdata Hfits Hover. subst cdata. unfold INT_MAX in *.
  destruct w as [cd u t]. unfold_handler.
  rewrite (resume_ok_b P resume_ok).
  cbn [control_data chanv data] in *.
  set (cdata := comp_data_reply P false _) in *.
  rewrite abi_total_size_exact by assumption.
  pose proof (load32_range (data cdata) offsetof_size).
  unfold declared_size in *.
  rewrite to_int_small by lia.
  destruct (Z.ltb_spec be_max
              (load32 (data cdata) offsetof_size + sizeof_sof_abi_hdr)); [|lia].
  split; reflexivity.
Qed.

End BytesGetSizeCheck.

(** C9 (the code departs from the claim).  The claim's scenario, capacity
    64, header 12, declared payload 60, is rejected by both bytes get
    handlers with nothing copied out.  But [snd_sof_bytes_ext_get] keeps the
    sum in an [int]: for a reply declaring 0xFFFFFFF8 payload bytes the sum
    12 + 0xFFFFFFF8 wraps to 4, the check against 64 passes, the envelope and
    4 bytes of the blob reach the caller and the handler reports success. *)
Theorem bytes_ext_get_size_check_wraps :
  (let '(ret, uc', _) :=
     snd_sof_bytes_get (abi := spec_abi) (replying_platform 60) 64
       example_control (replicate 512 Byte.xff) bytes_dev in
   ret = - EINVAL /\ uc' = replicate 512 Byte.xff)
  /\ (let '(ret, user', _) :=
        snd_sof_bytes_ext_get (abi := spec_abi) (replying_platform 60) 64
          example_control (replicate 80 Byte.xff) 80 bytes_dev in
      ret = - EINVAL /\ user' = replicate 80 Byte.xff)
  /\ (let '(ret, user', _) :=
        snd_sof_bytes_ext_get (abi := spec_abi)
          (replying_platform 0xFFFFFFF8) 64 example_control
          (replicate 80 Byte.xff) 80 bytes_dev in
      64 < 0xFFFFFFF8 + sizeof_sof_abi_hdr (sof_abi := spec_abi)
      /\ ret = 0
      /\ take 12 user'
         = le_split 4 9 ++ le_split 4 4 ++ take 4 (reply_blob 0xFFFFFFF8)).
Proof.
  split; [vm_compute; split; reflexivity|].
  split; [vm_compute; split; reflexivity|].
  vm_compute. split; [reflexivity|]. split; reflexivity.
Qed.

(** C10.  [snd_sof_bytes_ext_get] never looks at its [size] argument: the
    result is the same for any two sizes, the decrement by the envelope
    header size being dead.  The only bound on the copy is [be->max]: with a
    caller size of 16 and [be->max] 64, a 64-byte blob and its 8-byte
    envelope, 72 bytes in all, are written to the caller's memory. *)
Theorem bytes_ext_get_ignores_size :
  (forall (abi : sof_abi) (P : platform) (be_max : Z) (sc : snd_sof_control)
          (user : list byte) (size1 size2 : Z) (w : sof_dev),
     snd_sof_bytes_ext_get P be_max sc user size1 w
     = snd_sof_bytes_ext_get P be_max sc user size2 w)
  /\ (let '(ret, user', _) :=
        snd_sof_bytes_ext_get (abi := spec_abi) (replying_platform 52) 64
          example_control (replicate 80 Byte.xff) 16 bytes_dev in
      16 < 64
      /\ ret = 0
      /\ user'
         = le_split 4 9 ++ le_split 4 64 ++ reply_blob 52
           ++ replicate 8 Byte.xff).
Proof.
  split.
  - intros. reflexivity.
  - vm_compute. split; [reflexivity|]. split; reflexivity.
Qed.

(** * Further properties of the embedded code *)

(** ** Register and mailbox I/O *)

Lemma le_split_app (n m : nat) :
  forall z : Z,
    le_split (n + m) z
    = le_split n z ++ le_split m (Z.shiftr z (8 * Z.of_nat n)).
Proof.
  induction n as [|n IH]; intros z.
  - cbn [Nat.add]. simpl (8 * Z.of_nat 0). rewrite Z.shiftr_0_r. reflexivity.
  - change (le_split (S n + m) z)
      with (byte.of_Z z :: le_split (n + m) (Z.shiftr z 8)).
    change (le_split (S n) z)
      with (byte.of_Z z :: le_split n (Z.shiftr z 8)).
    rewrite IH, Z.shiftr_shiftr by lia.
    replace (8 * Z.of_nat (S n)) with (8 + 8 * Z.of_nat n) by lia.
    reflexivity.
Qed.

Lemma inserts_lookup_inside (mem bs : list byte) (a : nat) :
  (a + length bs <= length mem)%nat ->
  take (length bs) (drop a (list_inserts a bs mem)) = bs.
Proof.
  intros Hlen. apply list_eq. intros j.
  destruct (decide (j < length bs)%nat) as [Hj|Hj].
  - rewrite lookup_take_lt, lookup_drop by lia.
    rewrite list_lookup_inserts by lia. f_equal. lia.
  - rewrite lookup_take_ge by lia. symmetry. apply lookup_ge_None_2. lia.
Qed.

(** X1.  A message written to the mailbox is read back unchanged, the region
    keeps its length, and no byte outside the written window changes. *)
Theorem sof_mailbox_write_read (mem : list byte) (offset : Z)
    (message : list byte) (bytes : Z) :
  0 <= offset ->
  0 <= bytes <= Z.of_nat (length message) ->
  offset + bytes <= Z.of_nat (length mem) ->
  let mem' := sof_mailbox_write mem offset message bytes in
  sof_mailbox_read mem' offset bytes = take (Z.to_nat bytes) message
  /\ length mem' = length mem
  /\ (forall j : nat,
        Z.of_nat j < offset \/ offset + bytes <= Z.of_nat j ->
        mem' !! j = mem !! j).
Proof.
  intros Hoff Hbytes Hmem mem'. subst mem'.
  unfold sof_mailbox_write, sof_mailbox_read, memcpy_toio, memcpy_fromio.
  set (bs := take (Z.to_nat bytes) message).
  assert (Hbs : length bs = Z.to_nat bytes).
  { subst bs. rewrite length_take. lia. }
  split; [|split].
  - rewrite <- Hbs. apply inserts_lookup_inside. lia.
  - apply length_inserts.
  - intros j [Hlo|Hhi].
    + apply list_lookup_inserts_lt. lia.
    + apply list_lookup_inserts_ge. lia.
Qed.

Lemma sof_mailbox_write_read_witness :
  sof_mailbox_read
    (sof_mailbox_write (replicate 8 Byte.xaa) 3
       [Byte.x01; Byte.x02; Byte.x03] 2) 3 2
  = [Byte.x01; Byte.x02].
Proof.
  refine (proj1 (sof_mailbox_write_read (replicate 8 Byte.xaa) 3
                   [Byte.x01; Byte.x02; Byte.x03] 2 _ _ _)).
  - lia.
  - simpl. lia.
  - simpl. lia.
Defined.

(** X2.  With its accesses in bounds, [sof_block_write] leaves the region
    exactly as the byte-wise [sof_mailbox_write] of the same bytes does: the
    word copy and the patched last word add up to a plain copy. *)
Theorem sof_block_write_is_byte_copy (mem : list byte) (offset : Z)
    (src : list byte) (size : Z) :
  0 <= offset ->
  0 <= size <= INT_MAX ->
  size <= Z.of_nat (length src) ->
  offset + 4 * ((size + 3) / 4) <= Z.of_nat (length mem) ->
  sof_block_write mem offset src size = sof_mailbox_write mem offset src size.
Proof.
  intros Hoff Hsize Hsrc Hmem.
  rewrite sof_block_write_inserts by assumption. reflexivity.
Qed.

Lemma sof_block_write_is_byte_copy_witness :
  sof_block_write (replicate 12 Byte.xaa) 2
    [Byte.x01; Byte.x02; Byte.x03; Byte.x04; Byte.x05; Byte.x06; Byte.x07] 7
  = sof_mailbox_write (replicate 12 Byte.xaa) 2
      [Byte.x01; Byte.x02; Byte.x03; Byte.x04; Byte.x05; Byte.x06; Byte.x07] 7.
Proof.
  apply sof_block_write_is_byte_copy.
  - lia.
  - cbv [INT_MAX]. lia.
  - simpl. lia.
  - vm_compute. discriminate.
Defined.

(** X3.  The source word that [sof_block_write] reads past the end of the
    buffer never reaches the device: two sources that agree on their first
    [size] bytes leave the same region. *)
Theorem sof_block_write_ignores_overread (mem : list byte) (offset : Z)
    (src1 src2 : list byte) (size : Z) :
  0 <= offset ->
  0 <= size <= INT_MAX ->
  size <= Z.of_nat (length src1) ->
  size <= Z.of_nat (length src2) ->
  offset + 4 * ((size + 3) / 4) <= Z.of_nat (length mem) ->
  take (Z.to_nat size) src1 = take (Z.to_nat size) src2 ->
  sof_block_write mem offset src1 size = sof_block_write mem offset src2 size.
Proof.
  intros Hoff Hsize Hsrc1 Hsrc2 Hmem Hsame.
  rewrite !sof_block_write_inserts by assumption.
  rewrite Hsame. reflexivity.
Qed.

Lemma sof_block_write_ignores_overread_witness :
  sof_block_write (replicate 8 Byte.xaa) 0
    [Byte.x01; Byte.x02; Byte.x03; Byte.x11; Byte.x22] 3
  = sof_block_write (replicate 8 Byte.xaa) 0
      [Byte.x01; Byte.x02; Byte.x03; Byte.x33] 3.
Proof.
  apply sof_block_write_ignores_overread.
  - lia.
  - cbv [INT_MAX]. lia.
  - simpl. lia.
  - simpl. lia.
  - vm_compute. discriminate.
  - reflexivity.
Defined.

Lemma readl_writel (mem : list byte) (addr value : Z) :
  0 <= addr ->
  addr + 4 <= Z.of_nat (length mem) ->
  readl (writel value mem addr) addr = to_u32 value.
Proof.
  intros Haddr Hlen. unfold writel, readl, to_u32.
  pose proof (inserts_lookup_inside mem (le_split 4 value) (Z.to_nat addr))
    as Hin.
  rewrite length_le_split in Hin. rewrite Hin by lia.
  apply le_combine_split.
Qed.

Lemma readl_writel_other (mem : list byte) (addr addr' value : Z) :
  0 <= addr -> 0 <= addr' ->
  addr + 4 <= addr' \/ addr' + 4 <= addr ->
  readl (writel value mem addr') addr = readl mem addr.
Proof.
  intros Haddr Haddr' Hapart. unfold writel, readl. f_equal.
  apply list_eq. intros j. rewrite !lookup_take, !lookup_drop.
  destruct (decide (j < 4)%nat) as [Hj|Hj]; [|reflexivity].
  destruct Hapart.
  - apply list_lookup_inserts_lt. lia.
  - apply list_lookup_inserts_ge. rewrite length_le_split. lia.
Qed.

(** X4.  A 32-bit register write is read back as the value truncated to 32
    bits; the region keeps its length and the other bytes their values. *)
Theorem sof_io_write_read (mem : list byte) (addr value : Z) :
  0 <= addr ->
  addr + 4 <= Z.of_nat (length mem) ->
  let mem' := sof_io_write mem addr value in
  sof_io_read mem' addr = to_u32 value
  /\ length mem' = length mem
  /\ (forall j : nat,
        Z.of_nat j < addr \/ addr + 4 <= Z.of_nat j -> mem' !! j = mem !! j).
Proof.
  intros Haddr Hlen mem'. subst mem'. unfold sof_io_write, sof_io_read.
  split; [|split].
  - apply readl_writel; assumption.
  - apply length_inserts.
  - intros j [Hlo|Hhi]; unfold writel.
    + apply list_lookup_inserts_lt. lia.
    + apply list_lookup_inserts_ge. rewrite length_le_split. lia.
Qed.

Lemma sof_io_write_read_witness :
  sof_io_read (sof_io_write (replicate 8 Byte.xaa) 2 0x1122334455) 2
  = to_u32 0x1122334455.
Proof.
  refine (proj1 (sof_io_write_read (replicate 8 Byte.xaa) 2 0x1122334455 _ _)).
  - lia.
  - simpl. lia.
Defined.

(** X5.  A 64-bit register write is the low word written at [addr] followed
    by the high word at [addr + 4]; it is read back whole as the value
    truncated to 64 bits, and by two 32-bit reads as its low and high
    words. *)
Theorem sof_io_write64_lo_hi (mem : list byte) (addr value : Z) :
  0 <= addr ->
  addr + 8 <= Z.of_nat (length mem) ->
  let mem' := sof_io_write64 mem addr value in
  mem' = sof_io_write (sof_io_write mem addr value) (addr + 4)
           (Z.shiftr value 32)
  /\ sof_io_read64 mem' addr = to_size_t value
  /\ sof_io_read mem' addr = to_u32 value
  /\ sof_io_read mem' (addr + 4) = to_u32 (Z.shiftr value 32).
Proof.
  intros Haddr Hlen mem'.
  assert (Hsplit : mem' = sof_io_write (sof_io_write mem addr value) (addr + 4)
                            (Z.shiftr value 32)).
  { subst mem'. unfold sof_io_write64, sof_io_write, writeq, writel.
    change (le_split 8 value) with (le_split (4 + 4) value).
    rewrite (le_split_app 4 4 value), list_inserts_app_l, length_le_split.
    f_equal. lia. }
  split; [exact Hsplit|]. split; [|split].
  - subst mem'. unfold sof_io_write64, sof_io_read64, writeq, readq, to_size_t.
    pose proof (inserts_lookup_inside mem (le_split 8 value) (Z.to_nat addr))
      as Hin.
    rewrite length_le_split in Hin. rewrite Hin by lia.
    apply le_combine_split.
  - rewrite Hsplit. unfold sof_io_write, sof_io_read.
    rewrite readl_writel_other by lia.
    apply readl_writel; lia.
  - rewrite Hsplit. unfold sof_io_write, sof_io_read.
    apply readl_writel; [lia|]. unfold writel. rewrite length_inserts. lia.
Qed.

Lemma sof_io_write64_lo_hi_witness :
  sof_io_read64 (sof_io_write64 (replicate 12 Byte.xaa) 2 0x1122334455667788) 2
  = to_size_t 0x1122334455667788.
Proof.
  refine (proj1 (proj2 (sof_io_write64_lo_hi (replicate 12 Byte.xaa) 2
                          0x1122334455667788 _ _))).
  - lia.
  - simpl. lia.
Defined.

(** ** Mixer codec, continued *)

Section CodecOrder.

Variable volume_map : list Z.

Hypothesis size_fits : 1 <= Z.of_nat (length volume_map) <= INT_MAX.

Lemma ipc_to_mixer_range (value : Z) :
  0 <= ipc_to_mixer value volume_map (Z.of_nat (length volume_map))
    < Z.of_nat (length volume_map).
Proof.
  destruct (ipc_to_mixer_cases volume_map value size_fits)
    as [(Hr & _)|(Hr & _)]; lia.
Qed.

(** The decoded index is the first one whose entry reaches [value]; it is
    at most any index [i] whose entry does. *)
Lemma ipc_to_mixer_upto (value : Z) (i : Z) :
  0 <= i < Z.of_nat (length volume_map) ->
  value <= volume_map_at volume_map i ->
  let r := ipc_to_mixer value volume_map (Z.of_nat (length volume_map)) in
  r <= i
  /\ value <= volume_map_at volume_map r
  /\ forall j, 0 <= j < r -> volume_map_at volume_map j < value.
Proof.
  intros Hi Hreach r. subst r.
  destruct (ipc_to_mixer_cases volume_map value size_fits)
    as [(Hr & Hv & Hbelow)|(Hr & Hall)].
  - split; [|split; assumption].
    destruct (Z.le_gt_cases
                (ipc_to_mixer value volume_map (Z.of_nat (length volume_map))) i)
      as [|Hgt]; [assumption|].
    specialize (Hbelow i ltac:(lia)). lia.
  - specialize (Hall i Hi). lia.
Qed.

End CodecOrder.

Lemma mixer_to_ipc_clamped_index (volume_map : list Z) (value : Z) :
  1 <= Z.of_nat (length volume_map) <= INT_MAX ->
  0 <= value < 2 ^ 32 ->
  mixer_to_ipc value volume_map (Z.of_nat (length volume_map))
  = volume_map_at volume_map
      (Z.min value (Z.of_nat (length volume_map) - 1)).
Proof.
  intros Hsize Hvalue. unfold mixer_to_ipc, INT_MAX in *.
  rewrite (to_u32_small value),
    (to_u32_small (Z.of_nat (length volume_map))) by lia.
  destruct (Z.leb_spec (Z.of_nat (length volume_map)) value).
  - rewrite Z.min_r by lia. reflexivity.
  - rewrite Z.min_l by lia. reflexivity.
Qed.

(** X6.  Decoding an encoded UI value never yields a larger index: for any
    table, [ipc_to_mixer] of [mixer_to_ipc ui] is at most [ui], its entry is
    at least the encoded value, and every entry before it is smaller. *)
Theorem ipc_to_mixer_of_mixer_to_ipc_le (volume_map : list Z) (ui_value : Z) :
  let size := Z.of_nat (length volume_map) in
  let device := mixer_to_ipc ui_value volume_map size in
  let r := ipc_to_mixer device volume_map size in
  size <= INT_MAX ->
  0 <= ui_value < size ->
  r <= ui_value
  /\ device <= volume_map_at volume_map r
  /\ forall (j : nat) (x : Z),
       Z.of_nat j < r -> volume_map !! j = Some x -> x < device.
Proof.
  intros size device r Hsize Hui. subst r device size.
  assert (Hfits : 1 <= Z.of_nat (length volume_map) <= INT_MAX) by lia.
  pose proof (mixer_to_ipc_in_table volume_map ui_value Hsize Hui) as Hin.
  pose proof (volume_map_at_in_range volume_map ui_value Hui) as Hat.
  rewrite Hin in Hat. injection Hat as Hat.
  destruct (ipc_to_mixer_upto volume_map Hfits
              (mixer_to_ipc ui_value volume_map (Z.of_nat (length volume_map)))
              ui_value Hui ltac:(lia)) as (Hle & Hreach & Hbelow).
  split; [exact Hle|]. split; [exact Hreach|].
  intros j x Hj Hx. rewrite <- (volume_map_at_lookup _ _ _ Hx).
  apply Hbelow. lia.
Qed.

Lemma ipc_to_mixer_of_mixer_to_ipc_le_witness :
  ipc_to_mixer (mixer_to_ipc 2 [0; 10; 10; 50; 100] 5) [0; 10; 10; 50; 100] 5
  <= 2.
Proof.
  refine (proj1 (ipc_to_mixer_of_mixer_to_ipc_le [0; 10; 10; 50; 100] 2 _ _)).
  - cbv [INT_MAX]; simpl; lia.
  - simpl; lia.
Defined.

Lemma codec_exact_on_strict (volume_map : list Z) (ui_value : Z) :
  strictly_increasing volume_map ->
  Z.of_nat (length volume_map) <= INT_MAX ->
  0 <= ui_value < Z.of_nat (length volume_map) ->
  ipc_to_mixer (mixer_to_ipc ui_value volume_map (Z.of_nat (length volume_map)))
    volume_map (Z.of_nat (length volume_map))
  = ui_value.
Proof.
  intros Hstrict Hsize Hui.
  assert (Hfits : 1 <= Z.of_nat (length volume_map) <= INT_MAX) by lia.
  pose proof (mixer_to_ipc_in_table volume_map ui_value Hsize Hui) as Hin.
  pose proof (volume_map_at_in_range volume_map ui_value Hui) as Hat.
  rewrite Hin in Hat. injection Hat as Hat.
  destruct (ipc_to_mixer_upto volume_map Hfits
              (mixer_to_ipc ui_value volume_map (Z.of_nat (length volume_map)))
              ui_value Hui ltac:(lia)) as (Hle & Hreach & _).
  pose proof (ipc_to_mixer_range volume_map Hfits
                (mixer_to_ipc ui_value volume_map (Z.of_nat (length volume_map))))
    as Hrange.
  set (r := ipc_to_mixer _ volume_map _) in *.
  destruct (Z.eq_dec r ui_value) as [|Hne]; [assumption|].
  pose proof (volume_map_at_in_range volume_map r Hrange) as Hr.
  pose proof (Hstrict (Z.to_nat r) (Z.to_nat ui_value) _ _ ltac:(lia) Hr Hin).
  lia.
Qed.

(** X7.  On a strictly increasing table the codec is exact: [ipc_to_mixer]
    of [mixer_to_ipc ui] is [ui] for every index of the table. *)
Theorem ipc_to_mixer_inverts_mixer_to_ipc (volume_map : list Z)
    (ui_value : Z) :
  let size := Z.of_nat (length volume_map) in
  strictly_increasing volume_map ->
  size <= INT_MAX ->
  0 <= ui_value < size ->
  ipc_to_mixer (mixer_to_ipc ui_value volume_map size) volume_map size
  = ui_value.
Proof.
  intros size Hstrict Hsize Hui. subst size.
  apply codec_exact_on_strict; assumption.
Qed.

Lemma ipc_to_mixer_inverts_mixer_to_ipc_witness :
  ipc_to_mixer (mixer_to_ipc 2 [0; 10; 20; 50; 100] 5) [0; 10; 20; 50; 100] 5
  = 2.
Proof.
  apply (ipc_to_mixer_inverts_mixer_to_ipc [0; 10; 20; 50; 100] 2).
  - intros i j x y Hij Hx Hy.
    do 5 (destruct i as [|i];
          [do 5 (destruct j as [|j]; [simpl in *; simplify_eq; lia|]);
           simpl in Hy; discriminate|]).
    simpl in Hx. discriminate.
  - cbv [INT_MAX]; simpl; lia.
  - simpl; lia.
Defined.

(** X8.  [ipc_to_mixer] is monotone in the device value, on any table of at
    least one entry: a larger device value never decodes to a smaller
    index. *)
Theorem ipc_to_mixer_monotone (volume_map : list Z) (value value' : Z) :
  let size := Z.of_nat (length volume_map) in
  1 <= size <= INT_MAX ->
  value <= value' ->
  ipc_to_mixer value volume_map size <= ipc_to_mixer value' volume_map size.
Proof.
  intros size Hsize Hle. subst size.
  pose proof (ipc_to_mixer_range volume_map Hsize value) as Hrange.
  destruct (ipc_to_mixer_cases volume_map value' Hsize)
    as [(Hr' & Hv' & _)|(Hr' & _)].
  - apply (ipc_to_mixer_upto volume_map Hsize value _ Hr'). lia.
  - lia.
Qed.

Lemma ipc_to_mixer_monotone_witness :
  ipc_to_mixer 10 [0; 10; 10; 50; 100] 5 <= ipc_to_mixer 11 [0; 10; 10; 50; 100] 5.
Proof.
  apply (ipc_to_mixer_monotone [0; 10; 10; 50; 100] 10 11).
  - cbv [INT_MAX]; simpl; lia.
  - lia.
Defined.

(** X9.  On a non-decreasing table [mixer_to_ipc] is monotone in the UI
    value over the range of its [unsigned int] parameter, past the end of
    the table too, and never exceeds the last entry. *)
Theorem mixer_to_ipc_monotone (volume_map : list Z) (value value' : Z) :
  let size := Z.of_nat (length volume_map) in
  non_decreasing volume_map ->
  1 <= size <= INT_MAX ->
  0 <= value <= value' ->
  value' < 2 ^ 32 ->
  mixer_to_ipc value volume_map size <= mixer_to_ipc value' volume_map size
  /\ mixer_to_ipc value' volume_map size
     <= volume_map_at volume_map (size - 1).
Proof.
  intros size Hmono Hsize Hle Hu32. subst size.
  rewrite !mixer_to_ipc_clamped_index by lia.
  assert (Hstep : forall a b,
             0 <= a <= b -> b < Z.of_nat (length volume_map) ->
             volume_map_at volume_map a <= volume_map_at volume_map b).
  { intros a b Hab Hb.
    apply (Hmono (Z.to_nat a) (Z.to_nat b)); [lia| |];
      apply volume_map_at_in_range; lia. }
  split; apply Hstep; lia.
Qed.

Lemma mixer_to_ipc_monotone_witness :
  mixer_to_ipc 3 [0; 10; 10; 50; 100] 5 <= mixer_to_ipc 9 [0; 10; 10; 50; 100] 5.
Proof.
  refine (proj1 (mixer_to_ipc_monotone [0; 10; 10; 50; 100] 3 9 _ _ _ _)).
  - intros i j x y Hij Hx Hy.
    do 5 (destruct i as [|i];
          [do 5 (destruct j as [|j]; [simpl in *; simplify_eq; lia|]);
           simpl in Hy; discriminate|]).
    simpl in Hx. discriminate.
  - cbv [INT_MAX]; simpl; lia.
  - lia.
  - lia.
Defined.

(** ** Widget lookup and the signal-generator pipeline *)

(** X10.  [get_widget_type] returns the type of the first widget of the list
    whose component id is the control's, and reports a standalone control
    exactly when no widget of the list has that id. *)
Theorem get_widget_type_first_match (widgets : list snd_sof_widget)
    (scontrol : snd_sof_control) :
  match get_widget_type widgets scontrol with
  | Some id =>
      exists before swidget after,
        widgets = before ++ swidget :: after
        /\ Forall (fun x => widget_comp_id x <> comp_id scontrol) before
        /\ widget_comp_id swidget = comp_id scontrol
        /\ widget_id swidget = id
  | None => Forall (fun x => widget_comp_id x <> comp_id scontrol) widgets
  end.
Proof.
  induction widgets as [|x rest IH]; cbn [get_widget_type].
  - constructor.
  - destruct (Z.eqb_spec (widget_comp_id x) (comp_id scontrol)) as [Heq|Hne].
    + exists [], x, rest. repeat split; [constructor | exact Heq].
    + destruct (get_widget_type rest scontrol) as [id|].
      * destruct IH as (before & y & after & -> & Hbefore & Hy & Hid).
        exists (x :: before), y, after.
        repeat split; [constructor; assumption | exact Hy | exact Hid].
      * constructor; assumption.
Qed.

Lemma pm_calls_app (t1 t2 : list kevent) :
  pm_calls (t1 ++ t2) = pm_calls t1 ++ pm_calls t2.
Proof. apply List.filter_app. Qed.

Lemma ipc_calls_app (t1 t2 : list kevent) :
  ipc_calls (t1 ++ t2) = ipc_calls t1 ++ ipc_calls t2.
Proof. apply List.filter_app. Qed.

Lemma siggen_pipeline_trigger_run (P : platform) (new_state : Z)
    (w : sof_dev) :
  siggen_pipeline_trigger P new_state w
  = (if new_state =? 0 then tx_message_result P SOF_IPC_STREAM_PCM_FREE
     else if tx_message_result P SOF_IPC_STREAM_PCM_PARAMS <? 0
          then tx_message_result P SOF_IPC_STREAM_PCM_PARAMS
          else tx_message_result P SOF_IPC_STREAM_TRIG_START,
     mk_dev (control_data w) (usage_count w)
       (trace w ++ siggen_pipeline_log P new_state)).
Proof.
  destruct w as [cd u t].
  cbv [siggen_pipeline_trigger siggen_pipeline_log siggen_pcm_params
       siggen_trigger set_vfe_active_status sof_ipc_tx_message
       mbind mret K_bind K_ret log trace control_data usage_count].
  destruct (new_state =? 0); [rewrite <- app_assoc; reflexivity|].
  destruct (tx_message_result P SOF_IPC_STREAM_PCM_PARAMS <? 0);
    rewrite <- !app_assoc; reflexivity.
Qed.

(** X11.  [siggen_pipeline_trigger] leaves the cached control data and the
    usage counter alone.  For a zero [new_state] it marks the virtual
    front end inactive and sends PCM_FREE, whose result it returns.
    Otherwise it marks the front end active, updates the DPCM runtime and
    sends PCM_PARAMS; when that fails its error is returned and TRIG_START
    is not sent, else TRIG_START follows and its result is returned. *)
Theorem siggen_pipeline_trigger_sequence (P : platform) (new_state : Z)
    (w : sof_dev) :
  let '(ret, w') := siggen_pipeline_trigger P new_state w in
  let params := tx_message_result P SOF_IPC_STREAM_PCM_PARAMS in
  control_data w' = control_data w
  /\ usage_count w' = usage_count w
  /\ exists events : list kevent,
       trace w' = trace w ++ events
       /\ pm_calls events = []
       /\ comp_data_calls events = []
       /\ head events
          = Some (vfe_active_status (if new_state =? 0 then 0 else 1))
       /\ ipc_calls events
          = (if new_state =? 0
             then [ipc_tx_message SOF_IPC_STREAM_PCM_FREE]
             else if params <? 0
                  then [ipc_tx_message SOF_IPC_STREAM_PCM_PARAMS]
                  else [ipc_tx_message SOF_IPC_STREAM_PCM_PARAMS;
                        ipc_tx_message SOF_IPC_STREAM_TRIG_START])
       /\ ret
          = (if new_state =? 0
             then tx_message_result P SOF_IPC_STREAM_PCM_FREE
             else if params <? 0 then params
                  else tx_message_result P SOF_IPC_STREAM_TRIG_START).
Proof.
  rewrite siggen_pipeline_trigger_run. cbn [control_data usage_count trace].
  split; [reflexivity|]. split; [reflexivity|].
  exists (siggen_pipeline_log P new_state). unfold siggen_pipeline_log.
  destruct (new_state =? 0).
  - repeat split.
  - destruct (tx_message_result P SOF_IPC_STREAM_PCM_PARAMS <? 0);
      repeat split.
Qed.

(** ** Runtime PM around the handlers *)

Lemma pm_calls_siggen (P : platform) (new_state : Z) :
  pm_calls (siggen_pipeline_log P new_state) = [].
Proof.
  unfold siggen_pipeline_log.
  destruct (new_state =? 0); [reflexivity|].
  destruct (tx_message_result P SOF_IPC_STREAM_PCM_PARAMS <? 0); reflexivity.
Qed.

Lemma pm_bracketed_early (cd cd' : sof_ipc_ctrl_data) (u : Z)
    (t : list kevent) :
  pm_bracketed (mk_dev cd u t) (mk_dev cd' u t).
Proof. split; [reflexivity | left; reflexivity]. Qed.

Lemma pm_bracketed_failed (cd cd' : sof_ipc_ctrl_data) (u : Z)
    (t : list kevent) :
  pm_bracketed (mk_dev cd u t)
    (mk_dev cd' (u + 1 + -1) ((t ++ [pm_get_sync]) ++ [pm_put_noidle])).
Proof.
  split; cbn [usage_count trace]; [lia|].
  right; left. rewrite <- app_assoc. reflexivity.
Qed.

Lemma pm_bracketed_done (cd cd' : sof_ipc_ctrl_data) (u : Z)
    (t mid : list kevent) :
  pm_calls mid = [] ->
  pm_bracketed (mk_dev cd u t)
    (mk_dev cd' (u + 1 + -1)
       ((((t ++ [pm_get_sync]) ++ mid) ++ [pm_mark_last_busy])
        ++ [pm_put_autosuspend])).
Proof.
  intros Hmid. split; cbn [usage_count trace]; [lia|].
  right; right. exists mid. split; [|exact Hmid].
  rewrite <- !app_assoc. reflexivity.
Qed.

Lemma pm_bracketed_done_nil (cd cd' : sof_ipc_ctrl_data) (u : Z)
    (t : list kevent) :
  pm_bracketed (mk_dev cd u t)
    (mk_dev cd' (u + 1 + -1)
       (((t ++ [pm_get_sync]) ++ [pm_mark_last_busy])
        ++ [pm_put_autosuspend])).
Proof.
  rewrite <- (app_nil_r (t ++ [pm_get_sync])).
  apply pm_bracketed_done. reflexivity.
Qed.

(** Close a [pm_bracketed] goal on an unfolded handler. *)
Ltac close_pm_bracket :=
  repeat match goal with
    | |- context [if ?b then _ else _] => destruct b
    end;
  cbn [snd];
  first [ apply pm_bracketed_early
        | apply pm_bracketed_failed
        | apply pm_bracketed_done_nil
        | apply pm_bracketed_done; reflexivity ].

Lemma switch_put_pm_bracketed (P : platform) sc uc w :
  pm_bracketed w (snd (snd_sof_switch_put P sc uc w)).
Proof.
  destruct w as [cd u t]. unfold_handler.
  destruct (resume_result P <? 0); [apply pm_bracketed_failed|].
  rewrite switch_put_arm_run.
  destruct (changed _ =? 0); cbn [snd].
  - apply pm_bracketed_done_nil.
  - apply pm_bracketed_done.
    destruct (get_widget_type (widget_list P) sc) as [[| |id]|];
      try reflexivity.
    unfold pm_calls. cbn [List.filter is_pm]. apply pm_calls_siggen.
Qed.

(** X12.  Every kcontrol handler keeps the runtime-PM usage counter
    balanced on every path, and every call it makes to the DSP lies between
    a successful [pm_runtime_get_sync] and the closing
    [pm_runtime_mark_last_busy], [pm_runtime_put_autosuspend]: a handler
    either returns before resuming, or undoes a failed resume with
    [pm_runtime_put_noidle], or runs the full bracket once. *)
Theorem handlers_pm_bracketed {abi : sof_abi} (P : platform) (sm_max : Z)
    (be_max : Z) (sc : snd_sof_control) (uc : list Z) (bytes : list byte)
    (size : Z) (w : sof_dev) :
  pm_bracketed w (snd (snd_sof_volume_get P sm_max sc uc w))
  /\ pm_bracketed w (snd (snd_sof_volume_put P sm_max sc uc w))
  /\ pm_bracketed w (snd (snd_sof_switch_get P sc uc w))
  /\ pm_bracketed w (snd (snd_sof_switch_put P sc uc w))
  /\ pm_bracketed w (snd (snd_sof_enum_get P sc uc w))
  /\ pm_bracketed w (snd (snd_sof_enum_put P sc uc w))
  /\ pm_bracketed w (snd (snd_sof_bytes_get P be_max sc bytes w))
  /\ pm_bracketed w (snd (snd_sof_bytes_put P be_max sc bytes w))
  /\ pm_bracketed w (snd (snd_sof_bytes_ext_put P be_max sc bytes size w))
  /\ pm_bracketed w (snd (snd_sof_bytes_ext_get P be_max sc bytes size w)).
Proof.
  pose proof (switch_put_pm_bracketed P sc uc w) as Hswitch.
  destruct w as [cd u t].
  repeat match goal with |- _ /\ _ => split end; try exact Hswitch;
    unfold_handler; cbv [copy_from_user copy_to_user];
    close_pm_bracket.
Qed.

(** X13.  No handler looks at what [pm_runtime_put_autosuspend] returns
    beyond logging it: result, caller's buffer, device state and log are the
    same whatever that return code is. *)
Theorem handlers_ignore_autosuspend_result {abi : sof_abi} (P : platform)
    (r : Z) (sm_max : Z) (be_max : Z) (sc : snd_sof_control) (uc : list Z)
    (bytes : list byte) (size : Z) (w : sof_dev) :
  let P' := with_autosuspend_result r P in
  snd_sof_volume_get P' sm_max sc uc w = snd_sof_volume_get P sm_max sc uc w
  /\ snd_sof_volume_put P' sm_max sc uc w
     = snd_sof_volume_put P sm_max sc uc w
  /\ snd_sof_switch_get P' sc uc w = snd_sof_switch_get P sc uc w
  /\ snd_sof_switch_put P' sc uc w = snd_sof_switch_put P sc uc w
  /\ snd_sof_enum_get P' sc uc w = snd_sof_enum_get P sc uc w
  /\ snd_sof_enum_put P' sc uc w = snd_sof_enum_put P sc uc w
  /\ snd_sof_bytes_get P' be_max sc bytes w
     = snd_sof_bytes_get P be_max sc bytes w
  /\ snd_sof_bytes_put P' be_max sc bytes w
     = snd_sof_bytes_put P be_max sc bytes w
  /\ snd_sof_bytes_ext_put P' be_max sc bytes size w
     = snd_sof_bytes_ext_put P be_max sc bytes size w
  /\ snd_sof_bytes_ext_get P' be_max sc bytes size w
     = snd_sof_bytes_ext_get P be_max sc bytes size w.
Proof.
  intros P'. subst P'. destruct P as [rr ar cr reply tx widgets].
  destruct w as [cd u t].
  assert (Hswitch :
    snd_sof_switch_put
      (with_autosuspend_result r (mk_platform rr ar cr reply tx widgets))
      sc uc (mk_dev cd u t)
    = snd_sof_switch_put (mk_platform rr ar cr reply tx widgets) sc uc
        (mk_dev cd u t)).
  { unfold_handler.
    cbn [with_autosuspend_result resume_result widget_list].
    destruct (rr <? 0); [reflexivity|].
    rewrite !switch_put_arm_run.
    cbn [with_autosuspend_result comp_data_reply].
    replace (siggen_pipeline_log
               (mk_platform rr r cr reply tx widgets))
      with (siggen_pipeline_log (mk_platform rr ar cr reply tx widgets))
      by reflexivity.
    destruct (changed _ =? 0); reflexivity. }
  repeat apply conj; try exact Hswitch; reflexivity.
Qed.

(** ** Values through the volume, switch and enum handlers *)

Lemma ipc_to_mixer_bounded (value : Z) (volume_map : list Z) (size : Z) :
  1 <= size <= INT_MAX ->
  0 <= ipc_to_mixer value volume_map size < size.
Proof.
  unfold INT_MAX, ipc_to_mixer. intros Hsize.
  destruct (ipc_to_mixer_loop_spec volume_map value (Z.to_nat size) 0)
    as [(Hr & _)|(Hr & _)];
    rewrite to_u32_small by lia; lia.
Qed.

Lemma read_back_channels_lookup (decode : Z -> Z) (channels : Z)
    (cv : list sof_ipc_ctrl_value_chan) (uc : list Z) (i : nat) :
  read_back_channels decode channels cv uc !! i
  = if decide (i < Z.to_nat channels)%nat
    then (fun _ => decode (chanv_value cv i)) <$> uc !! i
    else uc !! i.
Proof.
  unfold read_back_channels, channel_range.
  induction (Z.to_nat channels) as [|n IH].
  - destruct (decide (i < 0)%nat); [lia | reflexivity].
  - rewrite seq_S, foldl_snoc. cbn [Nat.add].
    set (done := foldl _ uc (seq 0 n)) in *.
    assert (Hlen : length done = length uc).
    { subst done. clear IH. induction n as [|m IHm]; [reflexivity|].
      rewrite seq_S, foldl_snoc, length_insert. exact IHm. }
    destruct (decide (i = n)) as [->|Hne].
    + destruct (decide (n < S n)%nat); [|lia].
      destruct (decide (n < length uc)%nat) as [Hin|Hout].
      * rewrite list_lookup_insert_eq by lia.
        destruct (lookup_lt_is_Some_2 uc n Hin) as [x ->]. reflexivity.
      * rewrite list_insert_ge by lia.
        rewrite !lookup_ge_None_2 by lia. reflexivity.
    + rewrite list_lookup_insert_ne by congruence. rewrite IH.
      destruct (decide (i < n)%nat), (decide (i < S n)%nat);
        try lia; reflexivity.
Qed.

Lemma read_back_channels_length (decode : Z -> Z) (channels : Z)
    (cv : list sof_ipc_ctrl_value_chan) (uc : list Z) :
  length (read_back_channels decode channels cv uc) = length uc.
Proof.
  unfold read_back_channels, channel_range.
  induction (Z.to_nat channels) as [|n IH]; [reflexivity|].
  rewrite seq_S, foldl_snoc, length_insert. exact IH.
Qed.

Lemma new_channel_vector_lookup (encode : Z -> Z) (src : nat -> nat)
    (channels : Z) (uc : list Z) (i : nat) :
  (i < Z.to_nat channels)%nat ->
  new_channel_vector encode src channels uc !! i
  = Some (mk_chan (Z.of_nat i) (encode (ucontrol_value uc (src i)))).
Proof.
  intros Hi. unfold new_channel_vector, channel_range.
  rewrite list_lookup_fmap, lookup_seq_lt by lia. reflexivity.
Qed.

Lemma new_channel_vector_length (encode : Z -> Z) (src : nat -> nat)
    (channels : Z) (uc : list Z) :
  length (new_channel_vector encode src channels uc) = Z.to_nat channels.
Proof.
  unfold new_channel_vector, channel_range.
  rewrite length_fmap, length_seq. reflexivity.
Qed.

(** X14.  [snd_sof_volume_put] only ever sends entries of the volume table:
    with a table of [sm->max + 1] entries, the one set message of a call
    carries, for each channel [i], the channel number [i] and a value that
    occurs in the table, whatever (even out-of-range or negative) values
    the caller passes. *)
Theorem volume_put_sends_table_entries (P : platform) (sm_max : Z)
    (sc : snd_sof_control) (uc : list Z) (w : sof_dev) :
  0 <= resume_result P ->
  length (chanv (control_data w)) = Z.to_nat (num_channels sc) ->
  0 <= sm_max ->
  sm_max + 1 <= INT_MAX ->
  Z.of_nat (length (volume_table sc)) = sm_max + 1 ->
  exists cv : list sof_ipc_ctrl_value_chan,
    comp_data_calls (trace (snd (snd_sof_volume_put P sm_max sc uc w)))
    = comp_data_calls (trace w)
      ++ [(SOF_IPC_COMP_SET_VALUE, true, mk_cdata cv (data (control_data w)))]
    /\ length cv = Z.to_nat (num_channels sc)
    /\ forall (i : nat) (c : sof_ipc_ctrl_value_chan),
         cv !! i = Some c ->
         channel c = Z.of_nat i /\ value c ∈ volume_table sc.
Proof.
  intros Hresume Halloc Hmax Hint Hlen.
  rewrite (volume_put_calls P Hresume sc uc w Halloc sm_max).
  unfold set_message. eexists. split; [reflexivity|].
  split; [apply new_channel_vector_length|].
  intros i c Hc.
  assert (Hi : (i < Z.to_nat (num_channels sc))%nat).
  { apply lookup_lt_Some in Hc.
    rewrite new_channel_vector_length in Hc. exact Hc. }
  rewrite new_channel_vector_lookup in Hc by exact Hi.
  injection Hc as <-. cbn [channel value]. split; [reflexivity|].
  unfold INT_MAX in Hint.
  rewrite (to_int_small (sm_max + 1)) by lia. rewrite <- Hlen.
  pose proof (to_u32_range (ucontrol_value uc i)) as Hu.
  rewrite mixer_to_ipc_clamped_index by (unfold INT_MAX; lia).
  eapply list_elem_of_lookup_2.
  apply volume_map_at_in_range. lia.
Qed.

Lemma volume_put_sends_table_entries_witness :
  exists cv : list sof_ipc_ctrl_value_chan,
    comp_data_calls
      (trace (snd (snd_sof_volume_put quiet_platform 4 example_control
                     [7; -1] example_dev)))
    = comp_data_calls (trace example_dev)
      ++ [(SOF_IPC_COMP_SET_VALUE, true,
           mk_cdata cv (data (control_data example_dev)))]
    /\ length cv = Z.to_nat (num_channels example_control)
    /\ forall (i : nat) (c : sof_ipc_ctrl_value_chan),
         cv !! i = Some c ->
         channel c = Z.of_nat i /\ value c ∈ volume_table example_control.
Proof.
  apply (volume_put_sends_table_entries quiet_platform 4 example_control
           [7; -1] example_dev).
  - simpl. lia.
  - reflexivity.
  - lia.
  - cbv [INT_MAX]. lia.
  - reflexivity.
Defined.

(** X15.  [snd_sof_volume_get] hands the caller only UI values between 0
    and [sm->max], whatever the DSP left in the channel array: each of the
    first [num_channels] entries of the caller's array becomes such a value,
    the other entries keep theirs, and the result is 0. *)
Theorem volume_get_in_range (P : platform) (sm_max : Z)
    (sc : snd_sof_control) (uc : list Z) (w : sof_dev) :
  0 <= resume_result P ->
  0 <= sm_max ->
  sm_max + 1 <= INT_MAX ->
  let '(ret, uc', _) := snd_sof_volume_get P sm_max sc uc w in
  ret = 0
  /\ length uc' = length uc
  /\ forall (i : nat) (v : Z),
       uc' !! i = Some v ->
       if decide (i < Z.to_nat (num_channels sc))%nat
       then 0 <= v <= sm_max
       else uc !! i = Some v.
Proof.
  intros Hresume Hmax Hint. destruct w as [cd u t]. unfold_handler.
  rewrite (resume_ok_b P Hresume).
  split; [reflexivity|]. split; [apply read_back_channels_length|].
  intros i v. rewrite read_back_channels_lookup.
  destruct (decide (i < Z.to_nat (num_channels sc))%nat); [|auto].
  destruct (uc !! i); cbn [fmap option_fmap option_map]; [|discriminate].
  intros [= <-]. unfold INT_MAX in Hint.
  rewrite (to_int_small (sm_max + 1)) by lia.
  pose proof (ipc_to_mixer_bounded
                (chanv_value (chanv (comp_data_reply P false cd)) i)
                (volume_table sc) (sm_max + 1)
                ltac:(unfold INT_MAX; lia)).
  lia.
Qed.

Lemma volume_get_in_range_witness :
  let '(ret, uc', _) :=
    snd_sof_volume_get quiet_platform 4 example_control [0; 0; 77]
      (mk_dev (mk_cdata [mk_chan 0 4000000000; mk_chan 1 10] []) 0 []) in
  ret = 0
  /\ length uc' = 3%nat
  /\ forall (i : nat) (v : Z),
       uc' !! i = Some v ->
       if decide (i < Z.to_nat (num_channels example_control))%nat
       then 0 <= v <= 4
       else [0; 0; 77] !! i = Some v.
Proof.
  apply (volume_get_in_range quiet_platform 4 example_control [0; 0; 77]
           (mk_dev (mk_cdata [mk_chan 0 4000000000; mk_chan 1 10] []) 0 [])).
  - simpl. lia.
  - lia.
  - cbv [INT_MAX]. lia.
Defined.

Section PutThenGet.

Variable P : platform.
Hypothesis resume_ok : 0 <= resume_result P.
Hypothesis echo : dsp_echoes P.

Variable sc : snd_sof_control.
Variable uc : list Z.
Variable w : sof_dev.
Hypothesis chanv_allocated :
  length (chanv (control_data w)) = Z.to_nat (num_channels sc).

(** The channel array the three put handlers leave in the cache. *)
Lemma enum_put_cache :
  chanv (control_data (snd (snd_sof_enum_put P sc uc w)))
  = new_channel_vector to_u32 (fun i => i) (num_channels sc) uc.
Proof.
  destruct w as [cd u t]. cbn [control_data] in *.
  unfold_handler. rewrite (resume_ok_b P resume_ok). cbn [snd].
  rewrite echo. cbn [chanv]. apply update_channels_full. assumption.
Qed.

Lemma volume_put_cache (sm_max : Z) :
  chanv (control_data (snd (snd_sof_volume_put P sm_max sc uc w)))
  = new_channel_vector
      (fun v => mixer_to_ipc (to_u32 v) (volume_table sc) (to_int (sm_max + 1)))
      (fun i => i) (num_channels sc) uc.
Proof.
  destruct w as [cd u t]. cbn [control_data] in *.
  unfold_handler. rewrite (resume_ok_b P resume_ok). cbn [snd].
  rewrite echo. cbn [chanv]. apply update_channels_full. assumption.
Qed.

Lemma switch_put_cache :
  chanv (control_data (snd (snd_sof_switch_put P sc uc w)))
  = new_channel_vector (fun v => to_u32 (to_int v))
      (switch_source (get_widget_type (widget_list P) sc))
      (num_channels sc) uc.
Proof.
  destruct w as [cd u t]. cbn [control_data] in *.
  destruct (switch_loop_run_spec (get_widget_type (widget_list P) sc)
              (num_channels sc) uc (chanv cd) chanv_allocated)
    as (Hvec & _ & _).
  unfold_handler. rewrite (resume_ok_b P resume_ok).
  rewrite switch_put_arm_run.
  destruct (changed _ =? 0); cbn [snd]; rewrite ?echo; exact Hvec.
Qed.

(** What a get handler reads back from a cache holding [cv]. *)
Lemma value_get_reads (decode : Z -> Z) (cv : list sof_ipc_ctrl_value_chan)
    (encode : Z -> Z) (src : nat -> nat) (uc0 : list Z) (i : nat) :
  cv = new_channel_vector encode src (num_channels sc) uc ->
  (i < Z.to_nat (num_channels sc))%nat ->
  (i < length uc0)%nat ->
  read_back_channels decode (num_channels sc) cv uc0 !! i
  = Some (decode (encode (ucontrol_value uc (src i)))).
Proof.
  intros -> Hi Hlen. rewrite read_back_channels_lookup.
  destruct (decide (i < Z.to_nat (num_channels sc))%nat); [|lia].
  destruct (lookup_lt_is_Some_2 uc0 i Hlen) as [x ->].
  cbn [fmap option_fmap option_map]. unfold chanv_value.
  rewrite new_channel_vector_lookup by exact Hi. reflexivity.
Qed.

Lemma enum_put_get (uc0 : list Z) (i : nat) :
  (i < Z.to_nat (num_channels sc))%nat ->
  (i < length uc0)%nat ->
  let w1 := snd (snd_sof_enum_put P sc uc w) in
  let '(ret, uc', _) := snd_sof_enum_get P sc uc0 w1 in
  ret = 0 /\ uc' !! i = Some (to_u32 (ucontrol_value uc i)).
Proof.
  intros Hi Hlen w1. pose proof enum_put_cache as Hcache. fold w1 in Hcache.
  destruct w1 as [cd1 u1 t1]. cbn [control_data] in Hcache.
  unfold_handler. rewrite (resume_ok_b P resume_ok).
  split; [reflexivity|]. rewrite echo.
  apply (value_get_reads (fun v => v) _ to_u32 (fun i => i)); assumption.
Qed.

Lemma switch_put_get (uc0 : list Z) (i : nat) :
  (i < Z.to_nat (num_channels sc))%nat ->
  (i < length uc0)%nat ->
  let w1 := snd (snd_sof_switch_put P sc uc w) in
  let '(ret, uc', _) := snd_sof_switch_get P sc uc0 w1 in
  ret = 0
  /\ uc' !! i
     = Some (to_u32 (to_int (ucontrol_value uc
               (switch_source (get_widget_type (widget_list P) sc) i)))).
Proof.
  intros Hi Hlen w1. pose proof switch_put_cache as Hcache.
  fold w1 in Hcache.
  destruct w1 as [cd1 u1 t1]. cbn [control_data] in Hcache.
  unfold_handler. rewrite (resume_ok_b P resume_ok).
  split; [reflexivity|]. rewrite echo.
  apply (value_get_reads (fun v => v) _ (fun v => to_u32 (to_int v)));
    assumption.
Qed.

Lemma volume_put_get (sm_max : Z) (uc0 : list Z) (i : nat) :
  (i < Z.to_nat (num_channels sc))%nat ->
  (i < length uc0)%nat ->
  let size := to_int (sm_max + 1) in
  let w1 := snd (snd_sof_volume_put P sm_max sc uc w) in
  let '(ret, uc', _) := snd_sof_volume_get P sm_max sc uc0 w1 in
  ret = 0
  /\ uc' !! i
     = Some (ipc_to_mixer
               (mixer_to_ipc (to_u32 (ucontrol_value uc i)) (volume_table sc)
                  size)
               (volume_table sc) size).
Proof.
  intros Hi Hlen size w1. pose proof (volume_put_cache sm_max) as Hcache.
  fold w1 in Hcache.
  destruct w1 as [cd1 u1 t1]. cbn [control_data] in Hcache.
  unfold_handler. rewrite (resume_ok_b P resume_ok).
  split; [reflexivity|]. rewrite echo.
  apply (value_get_reads
           (fun v => ipc_to_mixer v (volume_table sc) size) _
           (fun v => mixer_to_ipc (to_u32 v) (volume_table sc) size)
           (fun i => i)); assumption.
Qed.

End PutThenGet.

(** X16.  Enum round trip: after [snd_sof_enum_put] of [uc] on a DSP that
    keeps what it is sent, [snd_sof_enum_get] returns 0 and hands back, for
    every channel of the control, the item that was put, as a [u32]. *)
Theorem enum_put_then_get (P : platform) (sc : snd_sof_control)
    (uc uc0 : list Z) (w : sof_dev) (i : nat) :
  0 <= resume_result P ->
  dsp_echoes P ->
  length (chanv (control_data w)) = Z.to_nat (num_channels sc) ->
  (i < Z.to_nat (num_channels sc))%nat ->
  (i < length uc0)%nat ->
  let w1 := snd (snd_sof_enum_put P sc uc w) in
  let '(ret, uc', _) := snd_sof_enum_get P sc uc0 w1 in
  ret = 0 /\ uc' !! i = Some (to_u32 (ucontrol_value uc i)).
Proof.
  intros Hresume Hecho Halloc Hi Hlen.
  apply (enum_put_get P Hresume Hecho sc uc w Halloc uc0 i Hi Hlen).
Qed.

Lemma enum_put_then_get_witness :
  let w1 := snd (snd_sof_enum_put quiet_platform example_control [3; 5]
                   example_dev) in
  let '(ret, uc', _) := snd_sof_enum_get quiet_platform example_control
                          [0; 0] w1 in
  ret = 0 /\ uc' !! 1%nat = Some (to_u32 (ucontrol_value [3; 5] 1)).
Proof.
  apply (enum_put_then_get quiet_platform example_control [3; 5] [0; 0]
           example_dev 1).
  - simpl. lia.
  - intros send c. reflexivity.
  - reflexivity.
  - simpl. lia.
  - simpl. lia.
Defined.

(** X17.  Switch round trip: after [snd_sof_switch_put] of [uc] on a DSP
    that keeps what it is sent, [snd_sof_switch_get] returns 0 and hands
    back, for channel [i], the state put for channel [i] when the control
    sits on a PGA, and the state put for channel 0 on every other widget or
    a standalone control; this holds whether or not the put found a
    change. *)
Theorem switch_put_then_get (P : platform) (sc : snd_sof_control)
    (uc uc0 : list Z) (w : sof_dev) (i : nat) :
  0 <= resume_result P ->
  dsp_echoes P ->
  length (chanv (control_data w)) = Z.to_nat (num_channels sc) ->
  (i < Z.to_nat (num_channels sc))%nat ->
  (i < length uc0)%nat ->
  let src := switch_source (get_widget_type (widget_list P) sc) in
  let w1 := snd (snd_sof_switch_put P sc uc w) in
  let '(ret, uc', _) := snd_sof_switch_get P sc uc0 w1 in
  ret = 0
  /\ uc' !! i = Some (to_u32 (to_int (ucontrol_value uc (src i)))).
Proof.
  intros Hresume Hecho Halloc Hi Hlen src.
  apply (switch_put_get P Hresume Hecho sc uc w Halloc uc0 i Hi Hlen).
Qed.

Lemma switch_put_then_get_witness :
  let w1 := snd (snd_sof_switch_put quiet_platform example_control [1; 0]
                   example_dev) in
  let '(ret, uc', _) := snd_sof_switch_get quiet_platform example_control
                          [9; 9] w1 in
  ret = 0 /\ uc' !! 1%nat = Some 1.
Proof.
  apply (switch_put_then_get quiet_platform example_control [1; 0] [9; 9]
           example_dev 1).
  - simpl. lia.
  - intros send c. reflexivity.
  - reflexivity.
  - simpl. lia.
  - simpl. lia.
Defined.

(** X18.  Volume round trip: on a strictly increasing table of
    [sm->max + 1] entries and a DSP that keeps what it is sent,
    [snd_sof_volume_get] after [snd_sof_volume_put] returns 0 and hands back
    every UI value between 0 and [sm->max] exactly as it was put. *)
Theorem volume_put_then_get (P : platform) (sm_max : Z)
    (sc : snd_sof_control) (uc uc0 : list Z) (w : sof_dev) (i : nat)
    (v : Z) :
  0 <= resume_result P ->
  dsp_echoes P ->
  length (chanv (control_data w)) = Z.to_nat (num_channels sc) ->
  strictly_increasing (volume_table sc) ->
  sm_max + 1 <= INT_MAX ->
  Z.of_nat (length (volume_table sc)) = sm_max + 1 ->
  (i < Z.to_nat (num_channels sc))%nat ->
  (i < length uc0)%nat ->
  uc !! i = Some v ->
  0 <= v <= sm_max ->
  let w1 := snd (snd_sof_volume_put P sm_max sc uc w) in
  let '(ret, uc', _) := snd_sof_volume_get P sm_max sc uc0 w1 in
  ret = 0 /\ uc' !! i = Some v.
Proof.
  intros Hresume Hecho Halloc Hstrict Hint Hsize Hi Hlen Hv Hrange.
  pose proof (volume_put_get P Hresume Hecho sc uc w Halloc sm_max uc0 i
                Hi Hlen) as Hrun.
  cbv zeta in *.
  destruct (snd_sof_volume_get P sm_max sc uc0 _) as [[ret uc'] w2].
  destruct Hrun as [-> ->]. split; [reflexivity|]. f_equal.
  unfold INT_MAX in Hint.
  unfold ucontrol_value. rewrite Hv.
  change (default 0 (Some v)) with v.
  rewrite (to_int_small (sm_max + 1)), (to_u32_small v) by lia.
  rewrite <- Hsize.
  apply codec_exact_on_strict; [assumption | unfold INT_MAX; lia | lia].
Qed.

Lemma volume_put_then_get_witness :
  let sc := mk_control 7 2 9 [0; 10; 20; 50; 100] in
  let w1 := snd (snd_sof_volume_put quiet_platform 4 sc [3; 1] example_dev) in
  let '(ret, uc', _) := snd_sof_volume_get quiet_platform 4 sc [0; 0] w1 in
  ret = 0 /\ uc' !! 0%nat = Some 3.
Proof.
  apply (volume_put_then_get quiet_platform 4
           (mk_control 7 2 9 [0; 10; 20; 50; 100]) [3; 1] [0; 0]
           example_dev 0 3).
  - simpl. lia.
  - intros send c. reflexivity.
  - reflexivity.
  - intros a b x y Hab Hx Hy. cbn [volume_table] in Hx, Hy.
    do 5 (destruct a as [|a];
          [do 5 (destruct b as [|b]; [simpl in *; simplify_eq; lia|]);
           simpl in Hy; discriminate|]).
    simpl in Hx. discriminate.
  - cbv [INT_MAX]. lia.
  - reflexivity.
  - simpl. lia.
  - simpl. lia.
  - reflexivity.
  - lia.
Defined.

(** ** A switch on a signal generator *)

Lemma switch_loop_new_state (uc : list Z) (src : nat -> nat) (channels : Z)
    (cv : list sof_ipc_ctrl_value_chan) :
  1 <= channels ->
  new_state (switch_loop_run uc src channels cv)
  = to_int (ucontrol_value uc (src (Z.to_nat channels - 1)%nat)).
Proof.
  intros Hpos. unfold switch_loop_run, channel_range.
  destruct (Z.to_nat channels) as [|n] eqn:Hn; [lia|].
  rewrite seq_S, foldl_snoc. cbn [Nat.add switch_step new_state].
  replace (S n - 1)%nat with n by lia. reflexivity.
Qed.

(** X19.  [snd_sof_switch_put] on a control attached to a signal generator
    compares the new state of channel 0 with the cached one, as [int]s.
    When they are equal nothing is sent.  When they differ the new channel
    array is sent once and the pipeline is triggered with the new state:
    PCM_FREE for 0, else PCM_PARAMS followed, unless that failed, by
    TRIG_START.  The result is 0 in every case, also when the trigger
    failed. *)
Theorem siggen_switch_put_triggers (P : platform) (sc : snd_sof_control)
    (uc : list Z) (w : sof_dev) :
  0 <= resume_result P ->
  get_widget_type (widget_list P) sc = Some snd_soc_dapm_siggen ->
  length (chanv (control_data w)) = Z.to_nat (num_channels sc) ->
  1 <= num_channels sc ->
  let new := to_int (ucontrol_value uc 0) in
  let old := to_int (chanv_value (chanv (control_data w)) 0) in
  let message :=
    ipc_comp_data SOF_IPC_COMP_SET_VALUE SOF_CTRL_TYPE_VALUE_CHAN_GET
      SOF_CTRL_CMD_SWITCH true
      (mk_cdata
         (new_channel_vector (fun v => to_u32 (to_int v)) (fun _ => 0%nat)
            (num_channels sc) uc)
         (data (control_data w))) in
  let '(ret, w') := snd_sof_switch_put P sc uc w in
  ret = 0
  /\ ipc_calls (trace w')
     = ipc_calls (trace w)
       ++ (if new =? old then []
           else if new =? 0
                then [message; ipc_tx_message SOF_IPC_STREAM_PCM_FREE]
                else if tx_message_result P SOF_IPC_STREAM_PCM_PARAMS <? 0
                     then [message; ipc_tx_message SOF_IPC_STREAM_PCM_PARAMS]
                     else [message; ipc_tx_message SOF_IPC_STREAM_PCM_PARAMS;
                           ipc_tx_message SOF_IPC_STREAM_TRIG_START]).
Proof.
  intros Hresume Hwidget Halloc Hpos new old message.
  destruct w as [cd u t]. cbn [control_data trace] in *.
  destruct (switch_loop_run_spec (Some snd_soc_dapm_siggen)
              (num_channels sc) uc (chanv cd) Halloc)
    as (Hvec & Hsame & Hdiff).
  cbn [switch_source] in Hvec, Hsame, Hdiff.
  pose proof (switch_loop_new_state uc (fun _ => 0%nat) (num_channels sc)
                (chanv cd) Hpos) as Hnew.
  cbv beta in Hnew.
  unfold_handler. rewrite (resume_ok_b P Hresume), Hwidget.
  rewrite switch_put_arm_run. cbn [switch_source].
  rewrite Hvec, Hnew. fold new.
  destruct (Z.eqb_spec new old) as [Heq|Hne].
  - rewrite Hsame by (intros i Hi; exact Heq).
    split; [reflexivity|].
    rewrite !ipc_calls_app. cbn. rewrite !app_nil_r. reflexivity.
  - rewrite Hdiff by (exists 0%nat; split; [lia | exact Hne]).
    split; [reflexivity|].
    rewrite !ipc_calls_app. unfold siggen_pipeline_log.
    destruct (new =? 0);
      [|destruct (tx_message_result P SOF_IPC_STREAM_PCM_PARAMS <? 0)];
      cbn; rewrite !app_nil_r; reflexivity.
Qed.

Lemma siggen_switch_put_triggers_witness :
  let P := mk_platform 0 0 0 (fun _ c => c)
             (fun c => match c with
                       | SOF_IPC_STREAM_PCM_PARAMS => -5
                       | _ => 0
                       end)
             [mk_widget 7 snd_soc_dapm_siggen] in
  let '(ret, w') := snd_sof_switch_put P example_control [5; 0] example_dev in
  ret = 0
  /\ ipc_calls (trace w')
     = [ipc_comp_data SOF_IPC_COMP_SET_VALUE SOF_CTRL_TYPE_VALUE_CHAN_GET
          SOF_CTRL_CMD_SWITCH true
          (mk_cdata [mk_chan 0 5; mk_chan 1 5] []);
        ipc_tx_message SOF_IPC_STREAM_PCM_PARAMS].
Proof.
  apply (siggen_switch_put_triggers
           (mk_platform 0 0 0 (fun _ c => c)
              (fun c => match c with
                        | SOF_IPC_STREAM_PCM_PARAMS => -5
                        | _ => 0
                        end)
              [mk_widget 7 snd_soc_dapm_siggen])
           example_control [5; 0] example_dev).
  - simpl. lia.
  - reflexivity.
  - reflexivity.
  - simpl. lia.
Defined.

(** ** Bytes controls *)

(** X20.  An extended bytes put that passes every check: the envelope can
    be read, its length is within [be->max] and its id is the control's,
    the blob can be read, and the copy in the cache has the right magic, a
    compatible ABI version and a total size within [be->max].  Then the
    device is resumed, the cache holding the caller's blob is sent once as
    SET_DATA under the control's command, the runtime-PM reference is
    dropped again, and the result is what [pm_runtime_get_sync] returned,
    not the result of the exchange. *)
Theorem bytes_ext_put_accepts {abi : sof_abi} (P : platform) (be_max : Z)
    (sc : snd_sof_control) (user : list byte) (size : Z) (w : sof_dev) :
  let header := take 8 user in
  let blob := take (Z.to_nat (load32 header 4)) (drop 8 user) in
  let cdata' :=
    mk_cdata (chanv (control_data w))
      (list_inserts 0 blob (data (control_data w))) in
  0 <= resume_result P ->
  sizeof_snd_ctl_tlv + load32 header 4 <= Z.of_nat (length user) ->
  load32 header 4 <= to_u32 be_max ->
  load32 header 0 = to_u32 (cmd sc) ->
  load32 (data cdata') offsetof_magic = SOF_ABI_MAGIC ->
  SOF_ABI_VERSION_INCOMPATIBLE SOF_ABI_VERSION
    (load32 (data cdata') offsetof_abi) = false ->
  abi_total_size cdata' <= to_size_t be_max ->
  let '(ret, w') := snd_sof_bytes_ext_put P be_max sc user size w in
  ret = resume_result P
  /\ control_data w' = comp_data_reply P true cdata'
  /\ usage_count w' = usage_count w
  /\ trace w'
     = trace w
       ++ [pm_get_sync;
           ipc_comp_data SOF_IPC_COMP_SET_DATA SOF_CTRL_TYPE_DATA_SET
             (scontrol_cmd (cmd sc)) true cdata';
           pm_mark_last_busy; pm_put_autosuspend].
Proof.
  intros header blob cdata' Hresume Hmapped Hlen Hid Hmagic Habi Hsize.
  subst cdata' blob header. unfold sizeof_snd_ctl_tlv in *.
  pose proof (load32_range (take 8 user) 4) as Hrange.
  destruct w as [cd u t]. unfold_handler. unfold sizeof_snd_ctl_tlv.
  rewrite copy_from_user_ok by lia.
  change (Z.to_nat 8) with 8%nat. change (Z.to_nat 0) with 0%nat.
  rewrite drop_0. cbn [Z.eqb negb].
  destruct (Z.ltb_spec (to_u32 be_max) (load32 (take 8 user) 4)); [lia|].
  rewrite Hid, Z.eqb_refl. cbn [negb].
  rewrite copy_from_user_ok by lia.
  change (Z.to_nat 8) with 8%nat. cbn [Z.eqb negb].
  cbn [control_data usage_count trace chanv data] in *.
  set (copied := list_inserts 0 _ (data cd)) in *.
  rewrite Hmagic, Z.eqb_refl, Habi. cbn [negb].
  destruct (Z.ltb_spec (to_size_t be_max)
              (abi_total_size (mk_cdata (chanv cd) copied))); [lia|].
  rewrite (resume_ok_b P Hresume).
  split; [reflexivity|]. split; [reflexivity|]. split; [lia|].
  rewrite <- !app_assoc. reflexivity.
Qed.

Lemma bytes_ext_put_accepts_witness :
  let P := mk_platform 1 0 (-5) (fun _ c => c) (fun _ => 0) [] in
  let blob := spec_blob 0x00464F53 0x03001000 2 [Byte.xaa; Byte.xbb] in
  let cdata' :=
    mk_cdata [] (list_inserts 0 blob (data (control_data bytes_dev))) in
  let '(ret, w') :=
    snd_sof_bytes_ext_put (abi := spec_abi) P 64 example_control
      (tlv_buffer 9 blob) 22 bytes_dev in
  ret = 1
  /\ control_data w' = cdata'
  /\ usage_count w' = 0
  /\ trace w'
     = [pm_get_sync;
        ipc_comp_data SOF_IPC_COMP_SET_DATA SOF_CTRL_TYPE_DATA_SET
          (scontrol_cmd 9) true cdata';
        pm_mark_last_busy; pm_put_autosuspend].
Proof.
  apply (bytes_ext_put_accepts (abi := spec_abi)
           (mk_platform 1 0 (-5) (fun _ c => c) (fun _ => 0) [])
           64 example_control
           (tlv_buffer 9
              (spec_blob 0x00464F53 0x03001000 2 [Byte.xaa; Byte.xbb]))
           22 bytes_dev).
  - simpl. lia.
  - vm_compute. discriminate.
  - vm_compute. discriminate.
  - reflexivity.
  - reflexivity.
  - reflexivity.
  - vm_compute. discriminate.
Defined.

Lemma inserts_0_prefix (bs l : list byte) :
  (length bs <= length l)%nat ->
  list_inserts 0 bs l = bs ++ drop (length bs) l.
Proof.
  intros Hlen. apply list_eq. intros j.
  destruct (decide (j < length bs)%nat) as [Hj|Hj].
  - rewrite list_lookup_inserts by lia.
    rewrite lookup_app_l by lia. f_equal. lia.
  - rewrite list_lookup_inserts_ge by lia.
    rewrite lookup_app_r by lia. rewrite lookup_drop. f_equal. lia.
Qed.

Lemma inserts_0_take_drop (n : nat) (src l : list byte) :
  (n <= length src)%nat ->
  (n <= length l)%nat ->
  take n (list_inserts 0 (take n src) l) = take n src
  /\ drop n (list_inserts 0 (take n src) l) = drop n l.
Proof.
  intros Hsrc Hl.
  assert (Hlen : length (take n src) = n) by (rewrite length_take; lia).
  rewrite inserts_0_prefix by lia. rewrite Hlen. split.
  - rewrite take_app_le by lia. rewrite take_take. f_equal. lia.
  - rewrite drop_app_ge by lia. rewrite Hlen, Nat.sub_diag. apply drop_0.
Qed.



(** X22.  [snd_sof_bytes_get] on a reply whose header plus declared payload
    fits [be->max]: exactly that many bytes of the reply land at the start
    of the caller's array, the rest of the array stays, and the result is
    what [pm_runtime_get_sync] returned. *)
Theorem bytes_get_copies_reply {abi : sof_abi} (P : platform) (be_max : Z)
    (sc : snd_sof_control) (uc : list byte) (w : sof_dev) :
  let reply := replied P w in
  let size := Z.to_nat (declared_size reply + sizeof_sof_abi_hdr) in
  0 <= resume_result P ->
  0 <= sizeof_sof_abi_hdr < 2 ^ 32 ->
  0 <= be_max <= sizeof_bytes_data ->
  declared_size reply + sizeof_sof_abi_hdr <= be_max ->
  (size <= length (data reply))%nat ->
  (size <= length uc)%nat ->
  let '(ret, uc', w') := snd_sof_bytes_get P be_max sc uc w in
  ret = resume_result P
  /\ control_data w' = reply
  /\ take size uc' = take size (data reply)
  /\ drop size uc' = drop size uc.
Proof.
  intros reply size Hresume Hhdr Hmax Hfits Hbuf Huc. subst size.
  unfold sizeof_bytes_data in *.
  destruct w as [cd u t]. unfold_handler.
  unfold sizeof_bytes_data. rewrite (to_size_t_small be_max) by lia.
  destruct (Z.ltb_spec 512 be_max); [lia|].
  rewrite (resume_ok_b P Hresume).
  change (comp_data_reply P false cd) with (replied P (mk_dev cd u t)).
  fold reply.
  rewrite abi_total_size_exact by assumption.
  destruct (Z.ltb_spec be_max (declared_size reply + sizeof_sof_abi_hdr));
    [lia|].
  split; [reflexivity|]. split; [reflexivity|].
  apply inserts_0_take_drop; assumption.
Qed.

Lemma bytes_get_copies_reply_witness :
  let '(ret, uc', w') :=
    snd_sof_bytes_get (abi := spec_abi) (replying_platform 4) 64
      example_control (replicate 512 Byte.xff) bytes_dev in
  ret = 0
  /\ control_data w' = mk_cdata [] (reply_blob 4)
  /\ take 16 uc' = take 16 (reply_blob 4)
  /\ drop 16 uc' = replicate 496 Byte.xff.
Proof.
  apply (bytes_get_copies_reply (abi := spec_abi) (replying_platform 4) 64
           example_control (replicate 512 Byte.xff) bytes_dev).
  - simpl. lia.
  - simpl. lia.
  - cbv [sizeof_bytes_data]. lia.
  - vm_compute. discriminate.
  - vm_compute. lia.
  - vm_compute. lia.
Defined.

Lemma copy_to_user_frame (user : list byte) (off : Z) (from : list byte)
    (n bound : Z) :
  0 <= off ->
  0 <= bound ->
  (n <= bound \/ TASK_SIZE_MAX < n) ->
  let user' := snd (copy_to_user user off from n) in
  length user' = length user
  /\ forall j : nat, off + bound <= Z.of_nat j -> user' !! j = user !! j.
Proof.
  intros Hoff Hbound Hn user'. subst user'. unfold copy_to_user.
  destruct (Z.ltb_spec TASK_SIZE_MAX n) as [Hbig|Hsmall]; cbn [snd].
  - split; [reflexivity | intros; reflexivity].
  - split; [apply length_inserts|].
    intros j Hj. apply list_lookup_inserts_ge.
    rewrite length_take. lia.
Qed.

(** X23.  Whatever the DSP replies, [snd_sof_bytes_ext_get] leaves the
    caller's memory its length and never writes at or beyond offset
    [sizeof(struct snd_ctl_tlv) + be->max]: the total it copies is checked
    against [be->max] as an [int], and a total that went negative there is
    refused by [copy_to_user]. *)
Theorem bytes_ext_get_bounded_write {abi : sof_abi} (P : platform)
    (be_max : Z) (sc : snd_sof_control) (user : list byte) (size : Z)
    (w : sof_dev) :
  0 <= be_max ->
  let '(_, user', _) := snd_sof_bytes_ext_get P be_max sc user size w in
  length user' = length user
  /\ forall j : nat,
       sizeof_snd_ctl_tlv + be_max <= Z.of_nat j -> user' !! j = user !! j.
Proof.
  intros Hmax. unfold sizeof_snd_ctl_tlv.
  destruct w as [cd u t]. unfold_handler. unfold sizeof_snd_ctl_tlv.
  destruct (resume_result P <? 0); [split; [reflexivity | intros; reflexivity]|].
  set (cdata := comp_data_reply P false _).
  set (data_size := to_int (abi_total_size cdata)).
  destruct (Z.ltb_spec be_max data_size) as [Hover|Hfits];
    [split; [reflexivity | intros; reflexivity]|].
  set (header := le_split 4 _ ++ le_split 4 _).
  pose proof (copy_to_user_frame user 0 header 8 8 ltac:(lia) ltac:(lia)
                ltac:(lia))
    as Hhead.
  destruct (copy_to_user user 0 header 8) as [left1 user1].
  cbn [snd] in Hhead. destruct Hhead as [Hlen1 Hframe1].
  assert (Hkeep1 : forall j : nat,
             8 + be_max <= Z.of_nat j -> user1 !! j = user !! j).
  { intros j Hj. apply Hframe1. lia. }
  destruct (left1 =? 0); cbn [negb]; [|split; assumption].
  assert (Hn : to_size_t data_size <= be_max
               \/ TASK_SIZE_MAX < to_size_t data_size).
  { pose proof (to_int_range (abi_total_size cdata)) as Hrange.
    fold data_size in Hrange. unfold to_size_t, TASK_SIZE_MAX.
    destruct (Z.lt_ge_cases data_size 0) as [Hneg|Hpos].
    - right.
      pose proof (Z.mod_unique data_size (2 ^ 64) (-1) (data_size + 2 ^ 64)
                    ltac:(lia) ltac:(lia)) as Hwrap.
      lia.
    - left. rewrite Z.mod_small by lia. lia. }
  pose proof (copy_to_user_frame user1 8 (data cdata) (to_size_t data_size)
                be_max ltac:(lia) Hmax Hn) as Hblob.
  destruct (copy_to_user user1 8 (data cdata) (to_size_t data_size))
    as [left2 user2].
  cbn [snd] in Hblob. destruct Hblob as [Hlen2 Hframe2].
  assert (Hboth : length user2 = length user
                  /\ forall j : nat,
                       8 + be_max <= Z.of_nat j -> user2 !! j = user !! j).
  { split; [congruence|]. intros j Hj.
    rewrite Hframe2 by exact Hj. apply Hkeep1. exact Hj. }
  destruct (left2 =? 0); exact Hboth.
Qed.

Lemma bytes_ext_get_bounded_write_witness :
  let '(_, user', _) :=
    snd_sof_bytes_ext_get (abi := spec_abi) (replying_platform 0xFFFFFFF8) 16
      example_control (replicate 80 Byte.xff) 80 bytes_dev in
  length user' = 80%nat
  /\ forall j : nat,
       8 + 16 <= Z.of_nat j -> user' !! j = replicate 80 Byte.xff !! j.
Proof.
  apply (bytes_ext_get_bounded_write (abi := spec_abi)
           (replying_platform 0xFFFFFFF8) 16 example_control
           (replicate 80 Byte.xff) 80 bytes_dev).
  lia.
Defined.

Lemma copy_to_user_ok (user : list byte) (off : Z) (from : list byte)
    (n : Z) :
  0 <= off ->
  0 <= n <= TASK_SIZE_MAX ->
  off + n <= Z.of_nat (length user) ->
  copy_to_user user off from n
  = (0, list_inserts (Z.to_nat off) (take (Z.to_nat n) from) user).
Proof.
  intros Hoff Hn Hroom. unfold copy_to_user.
  destruct (Z.ltb_spec TASK_SIZE_MAX n); [lia|].
  rewrite Z.max_r, Z.min_l by lia.
  rewrite Z.sub_diag. reflexivity.
Qed.

Lemma inserts_splice (i : nat) (bs l : list byte) :
  (i + length bs <= length l)%nat ->
  list_inserts i bs l = take i l ++ bs ++ drop (i + length bs) l.
Proof.
  intros Hlen. apply list_eq. intros j.
  destruct (decide (j < i)%nat) as [Hlt|Hge].
  { rewrite list_lookup_inserts_lt by lia.
    rewrite lookup_app_l by (rewrite length_take; lia).
    rewrite lookup_take_lt by lia. reflexivity. }
  rewrite lookup_app_r by (rewrite length_take; lia).
  rewrite length_take. replace (i `min` length l)%nat with i by lia.
  destruct (decide (j < i + length bs)%nat) as [Hin|Hout].
  - rewrite list_lookup_inserts by lia.
    rewrite lookup_app_l by lia. reflexivity.
  - rewrite list_lookup_inserts_ge by lia.
    rewrite lookup_app_r by lia. rewrite lookup_drop. f_equal. lia.
Qed.

(** X24.  [snd_sof_bytes_ext_get] when the reply fits: the request that
    goes to the DSP is the cache stamped with the driver's magic and ABI
    version; with the reply's header plus declared payload within
    [be->max] and the caller's memory large enough, that memory receives
    the envelope (the control's command, then the total as length) followed
    by exactly that many bytes of the reply, the rest stays, and the result
    is the result of the exchange. *)
Theorem bytes_ext_get_copies_reply {abi : sof_abi} (P : platform)
    (be_max : Z) (sc : snd_sof_control) (user : list byte) (size : Z)
    (w : sof_dev) :
  let request :=
    mk_cdata (chanv (control_data w))
      (store32 (store32 (data (control_data w)) offsetof_magic SOF_ABI_MAGIC)
         offsetof_abi SOF_ABI_VERSION) in
  let reply := comp_data_reply P false request in
  let total := declared_size reply + sizeof_sof_abi_hdr in
  0 <= resume_result P ->
  0 <= sizeof_sof_abi_hdr < 2 ^ 32 ->
  total <= be_max ->
  total <= INT_MAX ->
  total <= Z.of_nat (length (data reply)) ->
  sizeof_snd_ctl_tlv + total <= Z.of_nat (length user) ->
  let '(ret, user', w') := snd_sof_bytes_ext_get P be_max sc user size w in
  ret = comp_data_result P
  /\ comp_data_calls (trace w')
     = comp_data_calls (trace w) ++ [(SOF_IPC_COMP_GET_DATA, false, request)]
  /\ user'
     = le_split 4 (to_u32 (cmd sc)) ++ le_split 4 total
       ++ take (Z.to_nat total) (data reply)
       ++ drop (Z.to_nat (sizeof_snd_ctl_tlv + total)) user.
Proof.
  intros request reply total Hresume Hhdr Hfits Hint Hreply Huser.
  unfold sizeof_snd_ctl_tlv, INT_MAX in *.
  destruct w as [cd u t]. cbn [control_data trace] in *.
  unfold_handler. unfold sizeof_snd_ctl_tlv.
  rewrite (resume_ok_b P Hresume).
  fold request. fold reply.
  rewrite abi_total_size_exact by assumption. fold total.
  assert (Hpos : 0 <= total).
  { subst total. unfold declared_size.
    pose proof (load32_range (data reply) offsetof_size). lia. }
  rewrite (to_int_small total), (to_u32_small total),
    (to_size_t_small total) by lia.
  destruct (Z.ltb_spec be_max total); [lia|].
  set (header := le_split 4 (to_u32 (cmd sc)) ++ le_split 4 total).
  assert (Hheader : length header = 8%nat).
  { subst header. rewrite length_app, !length_le_split. reflexivity. }
  rewrite copy_to_user_ok by (unfold TASK_SIZE_MAX; lia).
  change (Z.to_nat 0) with 0%nat. change (Z.to_nat 8) with 8%nat.
  rewrite (take_ge header) by lia. cbn [Z.eqb negb].
  rewrite copy_to_user_ok
    by (rewrite ?length_inserts; unfold TASK_SIZE_MAX; lia).
  change (Z.to_nat 8) with 8%nat. cbn [Z.eqb negb].
  split; [reflexivity|]. split.
  { rewrite !comp_data_calls_app. cbn [comp_data_calls].
    rewrite !app_nil_r. reflexivity. }
  set (blob := take (Z.to_nat total) (data reply)).
  assert (Hblob : length blob = Z.to_nat total).
  { subst blob. rewrite length_take. lia. }
  rewrite (inserts_splice 0 header user) by lia.
  rewrite take_0. cbn [app Nat.add]. rewrite Hheader.
  rewrite inserts_splice by (rewrite length_app, length_drop; lia).
  rewrite take_app_length' by exact Hheader.
  rewrite drop_app_ge by lia. rewrite drop_drop, Hheader, Hblob.
  subst header. rewrite <- !app_assoc. do 3 f_equal.
  f_equal. lia.
Qed.

Lemma bytes_ext_get_copies_reply_witness :
  let P := mk_platform 0 0 (-5)
             (fun _ c => mk_cdata (chanv c) (reply_blob 4)) (fun _ => 0) [] in
  let '(ret, user', w') :=
    snd_sof_bytes_ext_get (abi := spec_abi) P 64 example_control
      (replicate 80 Byte.xff) 80 bytes_dev in
  ret = -5
  /\ comp_data_calls (trace w')
     = [(SOF_IPC_COMP_GET_DATA, false, control_data bytes_dev)]
  /\ user'
     = le_split 4 9 ++ le_split 4 16 ++ take 16 (reply_blob 4)
       ++ replicate 56 Byte.xff.
Proof.
  apply (bytes_ext_get_copies_reply (abi := spec_abi)
           (mk_platform 0 0 (-5)
              (fun _ c => mk_cdata (chanv c) (reply_blob 4)) (fun _ => 0) [])
           64 example_control (replicate 80 Byte.xff) 80 bytes_dev).
  - simpl. lia.
  - simpl. lia.
  - vm_compute. discriminate.
  - vm_compute. discriminate.
  - vm_compute. discriminate.
  - vm_compute. discriminate.
Defined.

(** ** DAI hardware configurations *)

Lemma dai_guard_ssp (ssp_type : Z) (config : Dai.sof_ipc_dai_config) :
  Dai.type config = ssp_type ->
  negb (Dai.type config =? ssp_type) = false.
Proof. intros ->. rewrite Z.eqb_refl. reflexivity. Qed.

Lemma dai_select_run (ssp_type : Z) (d : Dai.snd_sof_dai) (i : Z)
    (config : Dai.sof_ipc_dai_config)
    (sof_hw_config : Dai.snd_sof_hw_config) :
  Dai.dai_config d = Some config ->
  Dai.type config = ssp_type ->
  0 <= i < Dai.num_hw_configs d ->
  Dai.hw_config d !! Z.to_nat i = Some sof_hw_config ->
  Dai.sof_dai_set_cur_hw_config ssp_type (Some d) i
  = Dai.Returned
      (0, Dai.mk_dai (Some (Dai.apply_hw_config sof_hw_config config))
            (Dai.num_hw_configs d) i (Dai.hw_config d)).
Proof.
  intros Hconfig Htype Hi Hhw. unfold Dai.sof_dai_set_cur_hw_config.
  rewrite Hconfig, (dai_guard_ssp ssp_type config Htype), Hhw.
  destruct (Z.ltb_spec i 0); [lia|].
  destruct (Z.leb_spec (Dai.num_hw_configs d) i); [lia|].
  reflexivity.
Qed.

(** X25.  [sof_dai_set_cur_hw_config] refuses, with [-EINVAL] and the DAI
    left as it was, a DAI whose configuration is not of the SSP type, a
    negative index and an index at or beyond [num_hw_configs]. *)
Theorem sof_dai_set_cur_hw_config_rejects (ssp_type : Z)
    (d : Dai.snd_sof_dai) (i : Z) :
  (exists config : Dai.sof_ipc_dai_config,
     Dai.dai_config d = Some config /\ Dai.type config <> ssp_type)
  \/ i < 0 \/ Dai.num_hw_configs d <= i ->
  Dai.sof_dai_set_cur_hw_config ssp_type (Some d) i
  = Dai.Returned (- EINVAL, d).
Proof.
  intros Hbad. unfold Dai.sof_dai_set_cur_hw_config.
  destruct (Dai.dai_config d) as [config|] eqn:Hconfig.
  - destruct (Z.eqb_spec (Dai.type config) ssp_type) as [Htype|Htype];
      cbn [negb]; [|reflexivity].
    destruct Hbad as [(config' & [= <-] & Hne)|Hindex]; [contradiction|].
    destruct (Z.ltb_spec i 0); [reflexivity|].
    destruct (Z.leb_spec (Dai.num_hw_configs d) i); [reflexivity|lia].
  - destruct Hbad as [(config' & Habs & _)|Hindex]; [discriminate|].
    destruct (Z.ltb_spec i 0); [reflexivity|].
    destruct (Z.leb_spec (Dai.num_hw_configs d) i); [reflexivity|lia].
Qed.

Lemma sof_dai_set_cur_hw_config_rejects_witness :
  let d := Dai.mk_dai None 2 0 [] in
  Dai.sof_dai_set_cur_hw_config 1 (Some d) 2 = Dai.Returned (- EINVAL, d).
Proof.
  apply (sof_dai_set_cur_hw_config_rejects 1 (Dai.mk_dai None 2 0 []) 2).
  right. right. simpl. lia.
Defined.

(** X26.  With an SSP configuration and an index inside the table,
    [sof_dai_set_cur_hw_config] returns 0, records the index in
    [cur_hw_config], copies the format and the eight SSP clock and slot
    fields of the selected entry into the DAI configuration, and leaves the
    command, type, DAI index, sample bits, MCLK id and quirks of the
    configuration and the table itself as they were. *)
Theorem sof_dai_set_cur_hw_config_selects (ssp_type : Z)
    (d : Dai.snd_sof_dai) (i : Z) (config : Dai.sof_ipc_dai_config)
    (sof_hw_config : Dai.snd_sof_hw_config) :
  Dai.dai_config d = Some config ->
  Dai.type config = ssp_type ->
  0 <= i < Dai.num_hw_configs d ->
  Dai.hw_config d !! Z.to_nat i = Some sof_hw_config ->
  exists (d' : Dai.snd_sof_dai) (config' : Dai.sof_ipc_dai_config),
    Dai.sof_dai_set_cur_hw_config ssp_type (Some d) i = Dai.Returned (0, d')
    /\ Dai.dai_config d' = Some config'
    /\ Dai.cur_hw_config d' = i
    /\ Dai.num_hw_configs d' = Dai.num_hw_configs d
    /\ Dai.hw_config d' = Dai.hw_config d
    /\ Dai.format config' = Dai.hw_format sof_hw_config
    /\ Dai.mclk_rate (Dai.ssp config') = Dai.hw_mclk_rate sof_hw_config
    /\ Dai.bclk_rate (Dai.ssp config') = Dai.hw_bclk_rate sof_hw_config
    /\ Dai.fsync_rate (Dai.ssp config') = Dai.hw_fsync_rate sof_hw_config
    /\ Dai.tdm_slots (Dai.ssp config') = Dai.hw_tdm_slots sof_hw_config
    /\ Dai.tdm_slot_width (Dai.ssp config')
       = Dai.hw_tdm_slot_width sof_hw_config
    /\ Dai.mclk_direction (Dai.ssp config')
       = Dai.hw_mclk_direction sof_hw_config
    /\ Dai.rx_slots (Dai.ssp config') = Dai.hw_rx_slots sof_hw_config
    /\ Dai.tx_slots (Dai.ssp config') = Dai.hw_tx_slots sof_hw_config
    /\ Dai.hdr_cmd config' = Dai.hdr_cmd config
    /\ Dai.type config' = Dai.type config
    /\ Dai.dai_index config' = Dai.dai_index config
    /\ Dai.sample_valid_bits (Dai.ssp config')
       = Dai.sample_valid_bits (Dai.ssp config)
    /\ Dai.mclk_id (Dai.ssp config') = Dai.mclk_id (Dai.ssp config)
    /\ Dai.quirks (Dai.ssp config') = Dai.quirks (Dai.ssp config).
Proof.
  intros Hconfig Htype Hi Hhw.
  rewrite (dai_select_run ssp_type d i config sof_hw_config) by assumption.
  eexists. eexists. split; [reflexivity|]. cbn. repeat split.
Qed.

Lemma sof_dai_set_cur_hw_config_selects_witness :
  let hw0 := Dai.mk_hw_config 1 2 3 4 5 6 7 8 9 in
  let hw1 := Dai.mk_hw_config 11 12 13 14 15 16 17 18 19 in
  let config := Dai.mk_config 100 1 2 0 (Dai.mk_ssp 0 0 0 0 0 0 0 0 24 1 0) in
  let d := Dai.mk_dai (Some config) 2 0 [hw0; hw1] in
  exists (d' : Dai.snd_sof_dai) (config' : Dai.sof_ipc_dai_config),
    Dai.sof_dai_set_cur_hw_config 1 (Some d) 1 = Dai.Returned (0, d')
    /\ Dai.dai_config d' = Some config'
    /\ Dai.cur_hw_config d' = 1
    /\ Dai.num_hw_configs d' = 2
    /\ Dai.hw_config d' = [hw0; hw1]
    /\ Dai.format config' = 11
    /\ Dai.mclk_rate (Dai.ssp config') = 12
    /\ Dai.bclk_rate (Dai.ssp config') = 13
    /\ Dai.fsync_rate (Dai.ssp config') = 14
    /\ Dai.tdm_slots (Dai.ssp config') = 15
    /\ Dai.tdm_slot_width (Dai.ssp config') = 16
    /\ Dai.mclk_direction (Dai.ssp config') = 17
    /\ Dai.rx_slots (Dai.ssp config') = 18
    /\ Dai.tx_slots (Dai.ssp config') = 19
    /\ Dai.hdr_cmd config' = 100
    /\ Dai.type config' = 1
    /\ Dai.dai_index config' = 2
    /\ Dai.sample_valid_bits (Dai.ssp config') = 24
    /\ Dai.mclk_id (Dai.ssp config') = 1
    /\ Dai.quirks (Dai.ssp config') = 0.
Proof.
  apply (sof_dai_set_cur_hw_config_selects 1
           (Dai.mk_dai
              (Some (Dai.mk_config 100 1 2 0
                       (Dai.mk_ssp 0 0 0 0 0 0 0 0 24 1 0)))
              2 0
              [Dai.mk_hw_config 1 2 3 4 5 6 7 8 9;
               Dai.mk_hw_config 11 12 13 14 15 16 17 18 19])
           1
           (Dai.mk_config 100 1 2 0 (Dai.mk_ssp 0 0 0 0 0 0 0 0 24 1 0))
           (Dai.mk_hw_config 11 12 13 14 15 16 17 18 19)).
  - reflexivity.
  - reflexivity.
  - simpl. lia.
  - reflexivity.
Defined.

(** X27.  The last selection wins: once [sof_dai_set_cur_hw_config] has
    succeeded for some index, selecting a valid index [j] on the result
    gives the same DAI as selecting [j] right away, so nothing of an earlier
    selection survives a later one. *)
Theorem sof_dai_set_cur_hw_config_last_wins (ssp_type : Z)
    (d d1 : Dai.snd_sof_dai) (i j : Z) :
  Dai.sof_dai_set_cur_hw_config ssp_type (Some d) i = Dai.Returned (0, d1) ->
  0 <= j < Dai.num_hw_configs d ->
  Dai.sof_dai_set_cur_hw_config ssp_type (Some d1) j
  = Dai.sof_dai_set_cur_hw_config ssp_type (Some d) j.
Proof.
  intros Hfirst Hj. unfold Dai.sof_dai_set_cur_hw_config in *.
  destruct (Dai.dai_config d) as [config|] eqn:Hconfig.
  - destruct (Z.eqb_spec (Dai.type config) ssp_type) as [Htype|Htype];
      cbn [negb] in *; [|discriminate].
    destruct ((i <? 0) || (Dai.num_hw_configs d <=? i)); [discriminate|].
    destruct (Dai.hw_config d !! Z.to_nat i) as [hw_i|]; [|discriminate].
    injection Hfirst as <-.
    cbn [Dai.dai_config Dai.num_hw_configs Dai.hw_config
         Dai.apply_hw_config Dai.type].
    destruct (Z.eqb_spec (Dai.type config) ssp_type); [|contradiction].
    cbn [negb].
    destruct (Z.ltb_spec j 0); [lia|].
    destruct (Z.leb_spec (Dai.num_hw_configs d) j); [lia|]. cbn [orb].
    destruct (Dai.hw_config d !! Z.to_nat j) as [hw_j|]; reflexivity.
  - destruct ((i <? 0) || (Dai.num_hw_configs d <=? i)); [discriminate|].
    destruct (Dai.hw_config d !! Z.to_nat i); discriminate.
Qed.

Lemma sof_dai_set_cur_hw_config_last_wins_witness :
  let hw0 := Dai.mk_hw_config 1 2 3 4 5 6 7 8 9 in
  let hw1 := Dai.mk_hw_config 11 12 13 14 15 16 17 18 19 in
  let config := Dai.mk_config 100 1 2 0 (Dai.mk_ssp 0 0 0 0 0 0 0 0 24 1 0) in
  let d := Dai.mk_dai (Some config) 2 0 [hw0; hw1] in
  let d1 := Dai.mk_dai (Some (Dai.apply_hw_config hw1 config)) 2 1 [hw0; hw1] in
  Dai.sof_dai_set_cur_hw_config 1 (Some d1) 0
  = Dai.sof_dai_set_cur_hw_config 1 (Some d) 0.
Proof.
  apply (sof_dai_set_cur_hw_config_last_wins 1
           (Dai.mk_dai
              (Some (Dai.mk_config 100 1 2 0
                       (Dai.mk_ssp 0 0 0 0 0 0 0 0 24 1 0)))
              2 0
              [Dai.mk_hw_config 1 2 3 4 5 6 7 8 9;
               Dai.mk_hw_config 11 12 13 14 15 16 17 18 19])
           _ 1 0).
  - reflexivity.
  - simpl. lia.
Defined.

(** X28.  Selecting a hardware configuration and then loading it: after a
    successful [sof_dai_set_cur_hw_config], [sof_dai_load_hw_config] hands
    exactly one message to [sof_ipc_tx_message], under the command of the
    configuration header and carrying the configuration with the selected
    entry's values, and returns whatever [sof_ipc_tx_message] returned,
    negative or not. *)
Theorem sof_dai_set_then_load (ssp_type : Z)
    (tx : Z -> Dai.sof_ipc_dai_config -> Z) (d : Dai.snd_sof_dai) (i : Z)
    (config : Dai.sof_ipc_dai_config)
    (sof_hw_config : Dai.snd_sof_hw_config) :
  Dai.dai_config d = Some config ->
  Dai.type config = ssp_type ->
  0 <= i < Dai.num_hw_configs d ->
  Dai.hw_config d !! Z.to_nat i = Some sof_hw_config ->
  let message := Dai.apply_hw_config sof_hw_config config in
  match Dai.sof_dai_set_cur_hw_config ssp_type (Some d) i with
  | Dai.Returned (ret, d') =>
      ret = 0
      /\ Dai.sof_dai_load_hw_config tx d'
         = Dai.Returned (tx (Dai.hdr_cmd config) message,
                         [(Dai.hdr_cmd config, message)])
  | Dai.Fault => False
  end.
Proof.
  intros Hconfig Htype Hi Hhw message. subst message.
  rewrite (dai_select_run ssp_type d i config sof_hw_config) by assumption.
  split; [reflexivity|].
  unfold Dai.sof_dai_load_hw_config.
  cbn [Dai.dai_config Dai.apply_hw_config Dai.hdr_cmd].
  destruct (_ <? 0); reflexivity.
Qed.

Lemma sof_dai_set_then_load_witness :
  let hw0 := Dai.mk_hw_config 1 2 3 4 5 6 7 8 9 in
  let config := Dai.mk_config 100 1 2 0 (Dai.mk_ssp 0 0 0 0 0 0 0 0 24 1 0) in
  let d := Dai.mk_dai (Some config) 1 0 [hw0] in
  let message := Dai.apply_hw_config hw0 config in
  match Dai.sof_dai_set_cur_hw_config 1 (Some d) 0 with
  | Dai.Returned (ret, d') =>
      ret = 0
      /\ Dai.sof_dai_load_hw_config (fun _ _ => -5) d'
         = Dai.Returned (-5, [(100, message)])
  | Dai.Fault => False
  end.
Proof.
  apply (sof_dai_set_then_load 1 (fun _ _ => -5)
           (Dai.mk_dai
              (Some (Dai.mk_config 100 1 2 0
                       (Dai.mk_ssp 0 0 0 0 0 0 0 0 24 1 0)))
              1 0 [Dai.mk_hw_config 1 2 3 4 5 6 7 8 9])
           0
           (Dai.mk_config 100 1 2 0 (Dai.mk_ssp 0 0 0 0 0 0 0 0 24 1 0))
           (Dai.mk_hw_config 1 2 3 4 5 6 7 8 9)).
  - reflexivity.
  - reflexivity.
  - simpl. lia.
  - reflexivity.
Defined.

(** X29.  The NULL checks of the DAI functions do not protect them.  A
    NULL [dai] is caught by the guard of [sof_dai_set_cur_hw_config], whose
    error message then reads [dai->sdev]; a DAI with a NULL [dai_config]
    passes that guard and, for a valid index, is written through; and
    [sof_dai_load_hw_config] reads its [dai_config] unchecked.  All three
    end in a NULL dereference instead of an error code. *)
Theorem sof_dai_null_pointers_fault (ssp_type : Z)
    (tx : Z -> Dai.sof_ipc_dai_config -> Z) (d : Dai.snd_sof_dai)
    (i : Z) :
  Dai.dai_config d = None ->
  0 <= i < Dai.num_hw_configs d ->
  Dai.sof_dai_set_cur_hw_config ssp_type None i = Dai.Fault
  /\ Dai.sof_dai_set_cur_hw_config ssp_type (Some d) i = Dai.Fault
  /\ Dai.sof_dai_load_hw_config tx d = Dai.Fault.
Proof.
  intros Hconfig Hi. split; [reflexivity|].
  unfold Dai.sof_dai_set_cur_hw_config, Dai.sof_dai_load_hw_config.
  rewrite Hconfig.
  destruct (Z.ltb_spec i 0); [lia|].
  destruct (Z.leb_spec (Dai.num_hw_configs d) i); [lia|]. cbn [orb].
  split; [|reflexivity].
  destruct (Dai.hw_config d !! Z.to_nat i); reflexivity.
Qed.

Lemma sof_dai_null_pointers_fault_witness :
  let d := Dai.mk_dai None 1 0 [Dai.mk_hw_config 1 2 3 4 5 6 7 8 9] in
  Dai.sof_dai_set_cur_hw_config 1 None 0 = Dai.Fault
  /\ Dai.sof_dai_set_cur_hw_config 1 (Some d) 0 = Dai.Fault
  /\ Dai.sof_dai_load_hw_config (fun _ _ => 0) d = Dai.Fault.
Proof.
  apply (sof_dai_null_pointers_fault 1 (fun _ _ => 0)
           (Dai.mk_dai None 1 0 [Dai.mk_hw_config 1 2 3 4 5 6 7 8 9]) 0).
  - reflexivity.
  - simpl. lia.
Defined.
